(** * GitHub connector of dex: a shallow embedding and its verified properties

    The development follows the package [github] of the connector: the paginated
    fetcher ([get], [getPagination]), the e-mail resolution policy ([user],
    [userEmail], [isPreferredEmailDomain]), the group resolution engine
    ([getGroups], [groupsForOrgs], [teamsForOrg], [userGroups]) and the
    OAuth2 flow adapter ([HandleCallback], [Refresh]).

    Go values are modelled as follows.
    - [string] is a Rocq [string] (a sequence of bytes), [int] is [Z],
      [[]T] is [list T], [map[string][]string] is [gmap string (list string)].
    - A Go result pair [(T, error)] is the pair [T * option error]; [None]
      is the [nil] error.
    - The upstream server is a function from the requested URL to what
      [client.Do] returns; every request and every log line is recorded in
      an event log, and a [for { ... }] loop runs on fuel. *)

From Stdlib Require Import ZArith Lia Ascii String DecimalString.
From stdpp Require Import base option list strings gmap.

Local Open Scope Z_scope.
Local Open Scope list_scope.

(** ** Errors *)

(** Go's [error] values of this package: the ones built by [errors.New] and
    [fmt.Errorf], and the package's own [oauth2Error]. *)
Inductive error : Type :=
| errorString (msg : string)
| oauth2Error (err : string) (errorDescription : string).

(** [(e *oauth2Error) Error()] and the [Error()] of the formatted errors. *)
Definition Error (e : error) : string :=
  match e with
  | errorString msg => msg
  | oauth2Error err desc =>
      if decide (desc = EmptyString) then err else err +:+ ": " +:+ desc
  end.

(** [errors.New(msg)]. *)
Definition errors_New (msg : string) : error := errorString msg.

(** [fmt.Errorf(prefix + "%v", err)]. *)
Definition Errorf_v (prefix : string) (err : error) : error :=
  errorString (prefix +:+ Error err).

(** ** Strings *)

(** [strings.Split(s, sep)] for a one-byte separator: the fields between
    the separators, the empty string giving one empty field. *)
Fixpoint Split (s : string) (sep : ascii) : list string :=
  match s with
  | EmptyString => [EmptyString]
  | String a s' =>
      if decide (a = sep) then EmptyString :: Split s' sep
      else match Split s' sep with
           | [] => [String a EmptyString]
           | p :: ps => String a p :: ps
           end
  end.

(** [strings.Cut(s, sep)] for a one-byte separator: the text before and
    after the first separator, and whether there is one. *)
Fixpoint Cut (s : string) (sep : ascii) : string * string * bool :=
  match s with
  | EmptyString => (EmptyString, EmptyString, false)
  | String a s' =>
      if decide (a = sep) then (EmptyString, s', true)
      else match Cut s' sep with
           | (before, after, true) => (String a before, after, true)
           | (_, _, false) => (String a s', EmptyString, false)
           end
  end.

(** [strconv.Itoa] and the [%d] verb. *)
Definition Itoa (n : Z) : string := NilZero.string_of_int (Z.to_int n).

(** ** The pagination patterns

    [reNext] and [reLast] are [<([^>]+)>; rel="next"] and
    [<([^>]+)>; rel="last"].  A match starts at a [<], takes the longest
    run of bytes other than [>] (at least one), and must go on with the
    rest of the pattern.  As the run cannot contain [>], no shorter run can
    be followed by the [>] of the pattern: there is at most one match per
    start position, and the leftmost one is the match the package reports. *)

Definition gt_sign : ascii := Ascii.ascii_of_nat 62.
Definition lt_sign : ascii := Ascii.ascii_of_nat 60.

(** The longest prefix without [>], and what follows it. *)
Fixpoint span_url (s : string) : string * string :=
  match s with
  | EmptyString => (EmptyString, EmptyString)
  | String a s' =>
      if decide (a = gt_sign) then (EmptyString, s)
      else let '(u, rest) := span_url s' in (String a u, rest)
  end.

(** [s] starts with [p]. *)
Fixpoint has_prefix (p s : string) : bool :=
  match p, s with
  | EmptyString, _ => true
  | String a p', String b s' => bool_decide (a = b) && has_prefix p' s'
  | String _ _, EmptyString => false
  end.

(** A pattern [<([^>]+)] followed by the literal [tail]. *)
Record regexp : Type := MustCompile { re_tail : string }.

(** The one-byte string holding a double quote. *)
Definition dquote : string := String (Ascii.ascii_of_nat 34) EmptyString.

Definition rel_tail (name : string) : string :=
  ">; rel=" +:+ dquote +:+ name +:+ dquote.

Definition reNext : regexp := MustCompile (rel_tail "next").
Definition reLast : regexp := MustCompile (rel_tail "last").

(** A match of the pattern at the very start of [s]: the matched text and
    the captured URL. *)
Definition match_here (re : regexp) (s : string) : option (string * string) :=
  match s with
  | String a s' =>
      if decide (a = lt_sign) then
        let '(u, rest) := span_url s' in
        if decide (u = EmptyString) then None
        else if has_prefix (re_tail re) rest
             then Some (String a (u +:+ re_tail re), u)
             else None
      else None
  | EmptyString => None
  end.

(** [re.FindStringSubmatch(s)]: the leftmost match and its capture group,
    or the empty slice when the pattern does not occur. *)
Fixpoint FindStringSubmatch (re : regexp) (s : string) : list string :=
  match match_here re s with
  | Some (whole, u) => [whole; u]
  | None =>
      match s with
      | EmptyString => []
      | String _ s' => FindStringSubmatch re s'
      end
  end.

(** Indexing a slice that is known to be long enough. *)
Definition index (l : list string) (i : nat) : string := l !!! i.

(** ** The Go runtime and the upstream server *)

(** An HTTP response as the package reads it: the status code and status
    line, the [Link] header ([resp.Header.Get("Link")]), and what reading
    the body to its end gives ([io.ReadAll(resp.Body)]). *)
Record Response : Type := mkResponse {
  StatusCode : Z;
  Status : string;
  Header_Link : string;
  Body : string * option error;
}.

Definition StatusOK : Z := 200.
Definition StatusNoContent : Z := 204.
Definition StatusFound : Z := 302.
Definition StatusNotFound : Z := 404.

Definition ReadAll (body : string * option error) : string * option error :=
  body.

(** What [client.Do(req)] returns: a response, or an error and no response. *)
Inductive DoResult : Type :=
| DoOk (resp : Response)
| DoErr (err : error).

(** An [*http.Client] bound to one credential, seen as the function from
    the URL of a GET request to its outcome. *)
Definition Client : Type := string -> DoResult.

(** The parts of Go's standard library the package calls and this
    development does not define: [strconv.Quote] (the [%q] verb) and the
    error of [http.NewRequest("GET", url, nil)], if any. *)
Class GoRuntime : Type := {
  Quote : string -> string;
  NewRequest : string -> option error;
}.

(** [json.NewDecoder(body).Decode(&v)] for a freshly declared [v] of type
    [A]: the decoded value and the error, if any. *)
Class JSON (A : Type) : Type := {
  Decode : string * option error -> A * option error;
}.

(** *** Effects: the event log and the fuel *)

Inductive event : Type :=
| Request (url : string)
| LogInfo (msg : string) (args : list string).

(** A computation returns its value with the events it caused, or runs out
    of fuel ([None]). *)
Definition M (A : Type) : Type := option (A * list event).

Definition ret {A : Type} (a : A) : M A := Some (a, []).

Definition bind {A B : Type} (m : M A) (k : A -> M B) : M B :=
  match m with
  | None => None
  | Some (a, l) =>
      match k a with
      | None => None
      | Some (b, l') => Some (b, l ++ l')
      end
  end.

Definition emit (e : event) : M unit := Some (tt, [e]).

Definition out_of_fuel {A : Type} : M A := None.

(** The values a computation returns, if it returns. *)
Definition returns {A : Type} (m : M A) : option A := fst <$> m.

(** The events of a computation, if it returns. *)
Definition events {A : Type} (m : M A) : option (list event) := snd <$> m.

Notation "'let*' x ':=' m 'in' k" := (bind m (fun x => k))
  (at level 10, x pattern, m at level 100, k at level 200).

(** ** The paginated fetcher *)

(** [getPagination]: the URL of the next page, or the empty string. *)
Definition getPagination (apiURL : string) (resp : option Response) : string :=
  match resp with
  | None => EmptyString
  | Some resp =>
      let links := Header_Link resp in
      if decide (1 < length (FindStringSubmatch reLast links))%nat then
        let lastPageURL := index (FindStringSubmatch reLast links) 1 in
        if decide (apiURL = lastPageURL) then EmptyString
        else if decide (1 < length (FindStringSubmatch reNext links))%nat
             then index (FindStringSubmatch reNext links) 1
             else EmptyString
      else EmptyString
  end.

(** [get]: one GET of [apiURL], the body decoded into [v]; returns [v], the
    next page's URL and the error. *)
Definition get {A : Type} `{!GoRuntime} `{!JSON A}
    (client : Client) (apiURL : string) (v : A) : M (A * string * option error) :=
  match NewRequest apiURL with
  | Some err => ret (v, EmptyString, Some (Errorf_v "github: new req: " err))
  | None =>
      let* _ := emit (Request apiURL) in
      match client apiURL with
      | DoErr err => ret (v, EmptyString, Some (Errorf_v "github: get URL " err))
      | DoOk resp =>
          if decide (StatusCode resp ≠ StatusOK) then
            match ReadAll (Body resp) with
            | (_, Some err) =>
                ret (v, EmptyString, Some (Errorf_v "github: read body: " err))
            | (body, None) =>
                ret (v, EmptyString,
                     Some (errorString (Status resp +:+ ": " +:+ body)))
            end
          else
            match Decode (Body resp) with
            | (v', Some err) =>
                ret (v', EmptyString,
                     Some (Errorf_v "failed to decode response: " err))
            | (v', None) => ret (v', getPagination apiURL (Some resp), None)
            end
      end
  end.

(** ** The data model *)

(** [Org]: an org-team filter of the configuration; [Teams] is optional. *)
Module Org.
Record t : Type := mk { Name : string; Teams : list string }.
End Org.

(** [org], [team], [user] and [userEmail]: the shapes decoded from the
    upstream API. *)
Module org.
Record t : Type := mk { Login : string }.
End org.

Module team.
Record t : Type := mk { Name : string; Org : org.t; Slug : string }.
End team.

Module user.
Record t : Type := mk {
  Name : string; Login : string; ID : Z; Email : string }.
Definition zero : t := mk EmptyString EmptyString 0 EmptyString.
Definition with_Email (u : t) (email : string) : t :=
  mk (Name u) (Login u) (ID u) email.
End user.

Module userEmail.
Record t : Type := mk {
  Email : string; Verified : bool; Primary : bool; Visibility : string }.
Definition zero : t := mk EmptyString false false EmptyString.
Definition with_Verified (e : t) (v : bool) : t :=
  mk (Email e) v (Primary e) (Visibility e).
End userEmail.

(** [connectorData]: the opaque state, one access token. *)
Module connectorData.
Record t : Type := mk { AccessToken : string }.
Definition zero : t := mk EmptyString.
End connectorData.

(** [connector.Scopes] and [connector.Identity], as this package uses them. *)
Module Scopes.
Record t : Type := mk { OfflineAccess : bool; Groups : bool }.
End Scopes.

Module Identity.
Record t : Type := mk {
  UserID : string;
  Username : string;
  PreferredUsername : string;
  Email : string;
  EmailVerified : bool;
  Groups : list string;
  ConnectorData : string;
}.
Definition zero : t :=
  mk EmptyString EmptyString EmptyString EmptyString false [] EmptyString.
Definition with_UserID (i : t) (x : string) : t :=
  mk x (Username i) (PreferredUsername i) (Email i) (EmailVerified i)
     (Groups i) (ConnectorData i).
Definition with_Username (i : t) (x : string) : t :=
  mk (UserID i) x (PreferredUsername i) (Email i) (EmailVerified i)
     (Groups i) (ConnectorData i).
Definition with_PreferredUsername (i : t) (x : string) : t :=
  mk (UserID i) (Username i) x (Email i) (EmailVerified i)
     (Groups i) (ConnectorData i).
Definition with_Email (i : t) (x : string) : t :=
  mk (UserID i) (Username i) (PreferredUsername i) x (EmailVerified i)
     (Groups i) (ConnectorData i).
Definition with_Groups (i : t) (x : list string) : t :=
  mk (UserID i) (Username i) (PreferredUsername i) (Email i)
     (EmailVerified i) x (ConnectorData i).
Definition with_ConnectorData (i : t) (x : string) : t :=
  mk (UserID i) (Username i) (PreferredUsername i) (Email i)
     (EmailVerified i) (Groups i) x.
End Identity.

(** The [oauth2] package's configuration, endpoint and token. *)
Module Endpoint.
Record t : Type := mk { AuthURL : string; TokenURL : string }.
End Endpoint.

Module oauth2.
Record Config : Type := mkConfig {
  ClientID : string;
  ClientSecret : string;
  Endpoint : Endpoint.t;
  Scopes : list string;
  RedirectURL : string;
}.
Record Token : Type := mkToken { AccessToken : string }.
End oauth2.

(** [github.Endpoint] of [golang.org/x/oauth2/github]. *)
Definition github_Endpoint : Endpoint.t :=
  Endpoint.mk "https://github.com/login/oauth/authorize"
              "https://github.com/login/oauth/access_token".

(** An [*http.Client] of the connector's own: the one that trusts only the
    configured root certificate. *)
Inductive http_Client : Type := trusting (rootCA : string).

(** A [context.Context], as far as the package uses it: the HTTP client
    stored under [oauth2.HTTPClient], if any. *)
Definition Context : Type := option http_Client.

(** [githubConnector]; the logger is the event log. *)
Module githubConnector.
Record t : Type := mk {
  redirectURI : string;
  org : string;
  orgs : list Org.t;
  clientID : string;
  clientSecret : string;
  apiURL : string;
  hostName : string;
  rootCA : string;
  httpClient : option http_Client;
  teamNameField : string;
  loadAllGroups : bool;
  useLoginAsID : bool;
  preferredEmailDomain : string;
  noreplyPrivateEmail : bool;
}.
Definition with_preferredEmailDomain (c : t) (x : string) : t :=
  mk (redirectURI c) (org c) (orgs c) (clientID c) (clientSecret c) (apiURL c)
     (hostName c) (rootCA c) (httpClient c) (teamNameField c)
     (loadAllGroups c) (useLoginAsID c) x (noreplyPrivateEmail c).
Definition with_noreplyPrivateEmail (c : t) (x : bool) : t :=
  mk (redirectURI c) (org c) (orgs c) (clientID c) (clientSecret c) (apiURL c)
     (hostName c) (rootCA c) (httpClient c) (teamNameField c)
     (loadAllGroups c) (useLoginAsID c) (preferredEmailDomain c) x.
End githubConnector.

(** An incoming callback request: its query and its context. *)
Module http_Request.
Record t : Type := mk {
  URL_Query : gmap string (list string);
  Context : Context;
}.
End http_Request.

(** [url.Values.Get]: the first value of the key, or the empty string. *)
Definition Values_Get (q : gmap string (list string)) (key : string) : string :=
  match q !! key with
  | Some (v :: _) => v
  | _ => EmptyString
  end.

(** The upstream provider behind the [oauth2] package: the code exchange
    ([oauth2Config.Exchange(ctx, code)]) and the answers given to the
    token-bearing client ([oauth2Config.Client(ctx, token)]). *)
Record Upstream : Type := mkUpstream {
  Exchange : Context -> oauth2.Config -> string -> oauth2.Token * option error;
  Serve : Context -> oauth2.Config -> oauth2.Token -> Client;
}.

Definition apiURL : string := "https://api.github.com".
Definition scopeEmail : string := "user:email".
Definition scopeOrgs : string := "read:org".

(** Modelled from the spec: [Filter] of this repository's package
    [pkg/groups], whose source is not given; the spec has the org-list mode
    "keep only teams whose name appears in the allow-list".  The given
    names that are among the required ones, in their order. *)
Definition Filter (given required : list string) : list string :=
  filter (λ g, g ∈ required) given.

(** [json.Unmarshal] and [json.Marshal] on [connectorData]. *)
Class ConnectorDataJSON : Type := {
  Unmarshal : string -> connectorData.t * option error;
  Marshal : connectorData.t -> string * option error;
}.

(** Everything the connector takes from its libraries. *)
Class Env : Type := {
  env_runtime :: GoRuntime;
  env_user :: JSON user.t;
  env_emails :: JSON (list userEmail.t);
  env_teams :: JSON (list team.t);
  env_orgs :: JSON (list org.t);
  env_data :: ConnectorDataJSON;
}.

(** ** The connector's methods *)

Section Methods.
Context `{!Env}.
Implicit Types (c : githubConnector.t) (client : Client).

(** [groupsRequired]: whether the [read:org] scope is needed. *)
Definition groupsRequired c (groupScope : bool) : bool :=
  bool_decide (0 < length c.(githubConnector.orgs))%nat
  || bool_decide (c.(githubConnector.org) ≠ EmptyString)
  || groupScope.

Definition oauth2Config c (scopes : Scopes.t) : oauth2.Config :=
  let githubScopes := [scopeEmail] in
  let githubScopes :=
    if groupsRequired c (Scopes.Groups scopes)
    then githubScopes ++ [scopeOrgs] else githubScopes in
  let endpoint :=
    if decide (c.(githubConnector.hostName) ≠ EmptyString) then
      Endpoint.mk
        ("https://" +:+ c.(githubConnector.hostName) +:+ "/login/oauth/authorize")
        ("https://" +:+ c.(githubConnector.hostName) +:+ "/login/oauth/access_token")
    else github_Endpoint in
  oauth2.mkConfig c.(githubConnector.clientID) c.(githubConnector.clientSecret)
                  endpoint githubScopes c.(githubConnector.redirectURI).

(** [formatTeamName]: the team name prefixed with the org name. *)
Definition formatTeamName (org team : string) : string :=
  org +:+ ":" +:+ team.

(** [teamGroupClaims]: the slug, the name and the slug, or the name. *)
Definition teamGroupClaims c (t : team.t) : list string :=
  if decide (c.(githubConnector.teamNameField) = "both")
  then [team.Name t; team.Slug t]
  else if decide (c.(githubConnector.teamNameField) = "slug")
  then [team.Slug t]
  else [team.Name t].

(** The body of the [for { ... }] loop of [teamsForOrg]. *)
Fixpoint teamsForOrg_loop (fuel : nat) c client (orgName : string)
    (apiURL : string) (groups : list string) : M (list string * option error) :=
  match fuel with
  | O => out_of_fuel
  | S fuel =>
      let* (teams, apiURL, err) := get client apiURL ([] : list team.t) in
      match err with
      | Some err => ret ([], Some (Errorf_v "github: get teams: " err))
      | None =>
          let groups :=
            fold_left
              (λ groups t,
                 if decide (org.Login (team.Org t) = orgName)
                 then groups ++ teamGroupClaims c t else groups)
              teams groups in
          if decide (apiURL = EmptyString) then ret (groups, None)
          else teamsForOrg_loop fuel c client orgName apiURL groups
      end
  end.

(** [teamsForOrg]: the claims of the user's teams within one org. *)
Definition teamsForOrg (fuel : nat) c client (orgName : string)
    : M (list string * option error) :=
  teamsForOrg_loop fuel c client orgName
    (c.(githubConnector.apiURL) +:+ "/user/teams") [].

(** [userInOrg]: the membership check. *)
Definition userInOrg c client (userName orgName : string)
    : M (bool * option error) :=
  let apiURL :=
    c.(githubConnector.apiURL) +:+ "/orgs/" +:+ orgName
      +:+ "/members/" +:+ userName in
  match NewRequest apiURL with
  | Some err => ret (false, Some (Errorf_v "github: new req: " err))
  | None =>
      let* _ := emit (Request apiURL) in
      match client apiURL with
      | DoErr err => ret (false, Some (Errorf_v "github: get teams: " err))
      | DoOk resp =>
          let* err :=
            if decide (StatusCode resp = StatusNoContent) then ret None
            else if decide (StatusCode resp = StatusFound
                            ∨ StatusCode resp = StatusNotFound) then
              let* _ :=
                emit (LogInfo
                  "user not in org or application not authorized to read org data"
                  ["user"; userName; "org"; orgName]) in
              ret None
            else
              ret (Some (errorString
                ("github: unexpected return status: " +:+ Quote (Status resp))))
          in
          ret (bool_decide (StatusCode resp = StatusNoContent), err)
      end
  end.

(** The [for _, org := range c.orgs] loop of [groupsForOrgs], with what
    follows it. *)
Fixpoint groupsForOrgs_range (fuel : nat) c client (userName : string)
    (orgs : list Org.t) (groups : list string) (inOrgNoTeams : bool)
    : M (list string * option error) :=
  match orgs with
  | [] =>
      if inOrgNoTeams || bool_decide (0 < length groups)%nat
      then ret (groups, None)
      else ret (groups,
                Some (errorString
                  ("github: user " +:+ Quote userName
                     +:+ " not in required orgs or teams")))
  | org :: orgs =>
      let* (inOrg, err) := userInOrg c client userName (Org.Name org) in
      match err with
      | Some err => ret ([], Some err)
      | None =>
          if negb inOrg
          then groupsForOrgs_range fuel c client userName orgs groups inOrgNoTeams
          else
            let* (teams, err) := teamsForOrg fuel c client (Org.Name org) in
            match err with
            | Some err => ret ([], Some err)
            | None =>
                let* (teams, inOrgNoTeams) :=
                  if decide (length (Org.Teams org) = 0)%nat
                  then ret (teams, true)
                  else
                    let teams := Filter teams (Org.Teams org) in
                    if decide (length teams = 0)%nat then
                      let* _ :=
                        emit (LogInfo "user in org but no teams"
                                ["user"; userName; "org"; Org.Name org]) in
                      ret (teams, inOrgNoTeams)
                    else ret (teams, inOrgNoTeams)
                in
                let groups :=
                  fold_left
                    (λ groups teamName,
                       groups ++ [formatTeamName (Org.Name org) teamName])
                    teams groups in
                groupsForOrgs_range fuel c client userName orgs groups
                  inOrgNoTeams
            end
      end
  end.

(** [groupsForOrgs]: the org and team constraints of the org list. *)
Definition groupsForOrgs (fuel : nat) c client (userName : string)
    : M (list string * option error) :=
  groupsForOrgs_range fuel c client userName c.(githubConnector.orgs) [] false.

(** The loop of [userOrgs]. *)
Fixpoint userOrgs_loop (fuel : nat) client (apiURL : string)
    (groups : list string) : M (list string * option error) :=
  match fuel with
  | O => out_of_fuel
  | S fuel =>
      let* (orgs, apiURL, err) := get client apiURL ([] : list org.t) in
      match err with
      | Some err => ret ([], Some (Errorf_v "github: get orgs: " err))
      | None =>
          let groups :=
            fold_left (λ groups o, groups ++ [org.Login o]) orgs groups in
          if decide (apiURL = EmptyString) then ret (groups, None)
          else userOrgs_loop fuel client apiURL groups
      end
  end.

(** [userOrgs]: the logins of the user's orgs. *)
Definition userOrgs (fuel : nat) c client : M (list string * option error) :=
  userOrgs_loop fuel client (c.(githubConnector.apiURL) +:+ "/user/orgs") [].

(** The loop of [userOrgTeams]; [groups[k]] of a missing key is [nil]. *)
Fixpoint userOrgTeams_loop (fuel : nat) c client (apiURL : string)
    (groups : gmap string (list string))
    : M (gmap string (list string) * option error) :=
  match fuel with
  | O => out_of_fuel
  | S fuel =>
      let* (teams, apiURL, err) := get client apiURL ([] : list team.t) in
      match err with
      | Some err => ret (∅, Some (Errorf_v "github: get teams: " err))
      | None =>
          let groups :=
            fold_left
              (λ (groups : gmap string (list string)) t,
                 <[ org.Login (team.Org t) :=
                      default [] (groups !! org.Login (team.Org t))
                        ++ teamGroupClaims c t ]> groups)
              teams groups in
          if decide (apiURL = EmptyString) then ret (groups, None)
          else userOrgTeams_loop fuel c client apiURL groups
      end
  end.

(** [userOrgTeams]: the user's team claims, by org login. *)
Definition userOrgTeams (fuel : nat) c client
    : M (gmap string (list string) * option error) :=
  userOrgTeams_loop fuel c client
    (c.(githubConnector.apiURL) +:+ "/user/teams") ∅.

(** [userGroups]: every org of the user and every team under it. *)
Definition userGroups (fuel : nat) c client : M (list string * option error) :=
  let* (orgs, err) := userOrgs fuel c client in
  match err with
  | Some err => ret ([], Some err)
  | None =>
      let* (orgTeams, err) := userOrgTeams fuel c client in
      match err with
      | Some err => ret ([], Some err)
      | None =>
          let groups :=
            fold_left
              (λ groups o,
                 let groups := groups ++ [o] in
                 match orgTeams !! o with
                 | Some teams =>
                     fold_left
                       (λ groups t, groups ++ [formatTeamName o t])
                       teams groups
                 | None => groups
                 end)
              orgs [] in
          ret (groups, None)
      end
  end.

(** [getGroups]: the four group-resolution modes. *)
Definition getGroups (fuel : nat) c client (groupScope : bool)
    (userLogin : string) : M (list string * option error) :=
  if decide (0 < length c.(githubConnector.orgs))%nat
  then groupsForOrgs fuel c client userLogin
  else if decide (c.(githubConnector.org) ≠ EmptyString)
  then teamsForOrg fuel c client c.(githubConnector.org)
  else if groupScope && c.(githubConnector.loadAllGroups)
  then userGroups fuel c client
  else ret ([], None).

(** The loop over the labels of the preferred domain in
    [isPreferredEmailDomain]; [i] is the index of the label [v]. *)
Fixpoint isPreferredEmailDomain_range (domainParts : list string) (i : nat)
    (preferredDomainParts : list string) : bool :=
  match preferredDomainParts with
  | [] => true
  | v :: rest =>
      if bool_decide (index domainParts i ≠ v) && bool_decide (v ≠ "*")
      then false
      else isPreferredEmailDomain_range domainParts (S i) rest
  end.

(** [isPreferredEmailDomain]: the label-wise comparison with the glob. *)
Definition isPreferredEmailDomain c (domain : string) : bool :=
  if decide (domain = c.(githubConnector.preferredEmailDomain)) then true
  else
    let preferredDomainParts :=
      Split c.(githubConnector.preferredEmailDomain) "." in
    let domainParts := Split domain "." in
    if decide (length preferredDomainParts ≠ length domainParts) then false
    else isPreferredEmailDomain_range domainParts 0 preferredDomainParts.

(** The [for _, email := range emails] loop of [userEmail]: the updated
    [primaryEmail] and [preferredEmails], or the error it returns. *)
Fixpoint userEmail_range c (emails : list userEmail.t)
    (primaryEmail : userEmail.t) (preferredEmails : list userEmail.t)
    : userEmail.t * list userEmail.t + error :=
  match emails with
  | [] => inl (primaryEmail, preferredEmails)
  | email :: emails =>
      let email :=
        if decide (c.(githubConnector.hostName) ≠ EmptyString)
        then userEmail.with_Verified email true else email in
      let primaryEmail :=
        if userEmail.Verified email && userEmail.Primary email
        then email else primaryEmail in
      if decide (c.(githubConnector.preferredEmailDomain) ≠ EmptyString) then
        let '(_, domainPart, ok) := Cut (userEmail.Email email) "@" in
        if negb ok
        then inr (errors_New "github: invalid format email is detected")
        else
          let preferredEmails :=
            if userEmail.Verified email && isPreferredEmailDomain c domainPart
            then preferredEmails ++ [email] else preferredEmails in
          userEmail_range c emails primaryEmail preferredEmails
      else userEmail_range c emails primaryEmail preferredEmails
  end.

(** The [for { ... }] loop of [userEmail], with what follows it. *)
Fixpoint userEmail_loop (fuel : nat) c client (apiURL : string)
    (primaryEmail : userEmail.t) (preferredEmails : list userEmail.t)
    : M (string * option error) :=
  match fuel with
  | O => out_of_fuel
  | S fuel =>
      let* (emails, apiURL, err) :=
        get client apiURL ([] : list userEmail.t) in
      match err with
      | Some err => ret (EmptyString, Some err)
      | None =>
          match userEmail_range c emails primaryEmail preferredEmails with
          | inr err => ret (EmptyString, Some err)
          | inl (primaryEmail, preferredEmails) =>
              if decide (apiURL = EmptyString) then
                if decide (0 < length preferredEmails)%nat then
                  ret (userEmail.Email
                         (default userEmail.zero (preferredEmails !! 0%nat)),
                       None)
                else if decide (userEmail.Email primaryEmail ≠ EmptyString)
                then ret (userEmail.Email primaryEmail, None)
                else
                  ret (EmptyString,
                       Some (errors_New
                         "github: user has no verified, primary email or preferred-domain email"))
              else userEmail_loop fuel c client apiURL primaryEmail
                     preferredEmails
          end
      end
  end.

(** [userEmail]: the e-mail chosen among the user's private e-mails. *)
Definition userEmail (fuel : nat) c client : M (string * option error) :=
  userEmail_loop fuel c client
    (c.(githubConnector.apiURL) +:+ "/user/emails") userEmail.zero [].

(** [user]: the profile, with the e-mail the policy settles on. *)
Definition user (fuel : nat) c client : M (user.t * option error) :=
  let* (u, _, err) :=
    get client (c.(githubConnector.apiURL) +:+ "/user") user.zero in
  match err with
  | Some err => ret (u, Some err)
  | None =>
      if c.(githubConnector.noreplyPrivateEmail)
         && (bool_decide (c.(githubConnector.hostName) = EmptyString)
             || bool_decide (c.(githubConnector.hostName) = "github.com"))
      then
        ret (user.with_Email u
               (Itoa (user.ID u) +:+ "+" +:+ user.Login u
                  +:+ "@users.noreply.github.com"),
             None)
      else if bool_decide (user.Email u = EmptyString)
              || bool_decide
                   (c.(githubConnector.preferredEmailDomain) ≠ EmptyString)
      then
        let* (email, err) := userEmail fuel c client in
        match err with
        | Some err => ret (user.with_Email u email, Some err)
        | None => ret (user.with_Email u email, None)
        end
      else ret (u, None)
  end.

(** [HandleCallback]: from the callback request to the identity. *)
Definition HandleCallback (fuel : nat) (up : Upstream) c (s : Scopes.t)
    (r : http_Request.t) : M (Identity.t * option error) :=
  let identity := Identity.zero in
  let q := http_Request.URL_Query r in
  if decide (Values_Get q "error" ≠ EmptyString) then
    ret (identity,
         Some (oauth2Error (Values_Get q "error")
                           (Values_Get q "error_description")))
  else
    let oauth2Config := oauth2Config c s in
    let ctx :=
      match c.(githubConnector.httpClient) with
      | Some hc => Some hc
      | None => http_Request.Context r
      end in
    let '(token, err) := Exchange up ctx oauth2Config (Values_Get q "code") in
    match err with
    | Some err =>
        ret (identity, Some (Errorf_v "github: failed to get token: " err))
    | None =>
        let client := Serve up ctx oauth2Config token in
        let* (u, err) := user fuel c client in
        match err with
        | Some err => ret (identity, Some (Errorf_v "github: get user: " err))
        | None =>
            let username := user.Name u in
            let username :=
              if decide (username = EmptyString) then user.Login u
              else username in
            let identity :=
              Identity.mk (Itoa (user.ID u)) username (user.Login u)
                          (user.Email u) true [] EmptyString in
            let identity :=
              if c.(githubConnector.useLoginAsID)
              then Identity.with_UserID identity (user.Login u)
              else identity in
            let* (identity, err) :=
              if groupsRequired c (Scopes.Groups s) then
                let* (groups, err) :=
                  getGroups fuel c client (Scopes.Groups s) (user.Login u) in
                match err with
                | Some err => ret (identity, Some err)
                | None => ret (Identity.with_Groups identity groups, None)
                end
              else ret (identity, None)
            in
            match err with
            | Some err => ret (identity, Some err)
            | None =>
                if Scopes.OfflineAccess s then
                  let data :=
                    connectorData.mk (oauth2.AccessToken token) in
                  let '(connData, err) := Marshal data in
                  match err with
                  | Some err =>
                      ret (identity,
                           Some (Errorf_v "marshal connector data: " err))
                  | None =>
                      ret (Identity.with_ConnectorData identity connData, None)
                  end
                else ret (identity, None)
            end
        end
    end.

(** [Refresh]: the prior identity with its mutable fields fetched anew. *)
Definition Refresh (fuel : nat) (up : Upstream) c (ctx : Context)
    (s : Scopes.t) (identity : Identity.t) : M (Identity.t * option error) :=
  if decide (String.length (Identity.ConnectorData identity) = 0)%nat then
    ret (identity, Some (errors_New "no upstream access token found"))
  else
    let '(data, err) := Unmarshal (Identity.ConnectorData identity) in
    match err with
    | Some err =>
        ret (identity, Some (Errorf_v "github: unmarshal access token: " err))
    | None =>
        let client :=
          Serve up ctx (oauth2Config c s)
            (oauth2.mkToken (connectorData.AccessToken data)) in
        let* (u, err) := user fuel c client in
        match err with
        | Some err => ret (identity, Some (Errorf_v "github: get user: " err))
        | None =>
            let username := user.Name u in
            let username :=
              if decide (username = EmptyString) then user.Login u
              else username in
            let identity := Identity.with_Username identity username in
            let identity :=
              Identity.with_PreferredUsername identity (user.Login u) in
            let identity := Identity.with_Email identity (user.Email u) in
            if groupsRequired c (Scopes.Groups s) then
              let* (groups, err) :=
                getGroups fuel c client (Scopes.Groups s) (user.Login u) in
              match err with
              | Some err => ret (identity, Some err)
              | None => ret (Identity.with_Groups identity groups, None)
              end
            else ret (identity, None)
        end
    end.
End Methods.

(** ** Specification vocabulary *)

(** *** Relation-tagged links *)

(** No byte of the string is [>]. *)
Fixpoint no_gt (u : string) : bool :=
  match u with
  | EmptyString => true
  | String a u' => bool_decide (a ≠ gt_sign) && no_gt u'
  end.

(** The header entry [<url>; rel="name"]. *)
Definition entry (name url : string) : string :=
  String lt_sign (url +:+ rel_tail name).

(** The header [links] carries the relation [name] with the URL [url]
    right after the prefix [pre]. *)
Definition OccursAt (name links pre url : string) : Prop :=
  url ≠ EmptyString ∧ no_gt url = true ∧
  ∃ post, links = pre +:+ entry name url +:+ post.

(** The header carries no relation [name]. *)
Definition NoRel (name links : string) : Prop :=
  ∀ pre url, ¬ OccursAt name links pre url.

(** [url] is the URL of the first relation [name] of the header. *)
Definition FirstRel (name links url : string) : Prop :=
  ∃ pre, OccursAt name links pre url ∧
    ∀ pre' url', OccursAt name links pre' url' →
      (String.length pre ≤ String.length pre')%nat.

(** *** Domain globs *)

(** A label of the glob admits a label of the candidate. *)
Definition label_matches (p d : string) : Prop := d = p ∨ p = "*".

(** *** Successive pages *)

(** Starting at [url], the upstream serves the pages [pages], one GET
    each, every page but the last one naming the next. *)
Inductive Pages {A : Type} `{!GoRuntime} `{!JSON (list A)} (client : Client)
    : string → list (list A) → Prop :=
| Pages_last (url : string) (page : list A) :
    returns (get client url []) = Some (page, EmptyString, None) →
    Pages client url [page]
| Pages_next (url next : string) (page : list A) (rest : list (list A)) :
    returns (get client url []) = Some (page, next, None) →
    next ≠ EmptyString →
    Pages client next rest →
    Pages client url (page :: rest).

(** *** Teams and orgs *)

Section GroupVocabulary.
Context `{!Env}.
Implicit Types (c : githubConnector.t) (client : Client).

(** The claims of the teams of [teams] that belong to the org [orgName],
    in the order of the teams. *)
Definition teamsOfOrg c (orgName : string) (teams : list team.t)
    : list string :=
  filter (λ t, org.Login (team.Org t) = orgName) teams ≫= teamGroupClaims c.

(** The URL of the membership check. *)
Definition membershipURL c (userName orgName : string) : string :=
  c.(githubConnector.apiURL) +:+ "/orgs/" +:+ orgName
    +:+ "/members/" +:+ userName.

(** The membership check of the org is answered, with one of the
    statuses [204], [302] and [404]. *)
Definition Conclusive c client (userName orgName : string) : Prop :=
  NewRequest (membershipURL c userName orgName) = None ∧
  ∃ resp, client (membershipURL c userName orgName) = DoOk resp ∧
    (StatusCode resp = StatusNoContent ∨ StatusCode resp = StatusFound
     ∨ StatusCode resp = StatusNotFound).

(** The membership check of the org answers [204]: the user is a
    confirmed member. *)
Definition confirmed c client (userName orgName : string) : bool :=
  match client (membershipURL c userName orgName) with
  | DoOk resp => bool_decide (StatusCode resp = StatusNoContent)
  | DoErr _ => false
  end.

(** The team claims kept for a configured org: all of them without an
    allow-list, and otherwise those on the allow-list. *)
Definition keptTeams c (teams : list team.t) (o : Org.t) : list string :=
  if decide (Org.Teams o = [])
  then teamsOfOrg c (Org.Name o) teams
  else Filter (teamsOfOrg c (Org.Name o) teams) (Org.Teams o).

(** The group strings a configured org contributes. *)
Definition orgGroups c client (userName : string) (teams : list team.t)
    (o : Org.t) : list string :=
  if confirmed c client userName (Org.Name o)
  then formatTeamName (Org.Name o) <$> keptTeams c teams o
  else [].

(** The projection of the team name is the default one, the name of the
    team: the field is neither [both] nor [slug]. *)
Definition projectsNames c : Prop :=
  c.(githubConnector.teamNameField) ≠ "both" ∧
  c.(githubConnector.teamNameField) ≠ "slug".

(** The names of the teams of [teams] that belong to the org [orgName],
    in the order of the teams. *)
Definition teamNamesIn (orgName : string) (teams : list team.t)
    : list string :=
  team.Name <$> filter (λ t, org.Login (team.Org t) = orgName) teams.

(** A configured org admits the user, as the code decides it: the user
    is a confirmed member, and the org has no allow-list or one of the
    strings that [teamGroupClaims] gives for the user's teams in the org
    (the name, the slug, or both) is on the allow-list. *)
Definition admits c client (userName : string) (teams : list team.t)
    (o : Org.t) : Prop :=
  confirmed c client userName (Org.Name o) = true ∧
  (Org.Teams o = [] ∨
   Filter (teamsOfOrg c (Org.Name o) teams) (Org.Teams o) ≠ []).

(** A configured org authorizes the user, in the words of the
    specification: the user is a confirmed member, and the org has no
    team restriction or the allow-list and the names of the user's teams
    in the org have a name in common. *)
Definition authorizes c client (userName : string) (teams : list team.t)
    (o : Org.t) : Prop :=
  confirmed c client userName (Org.Name o) = true ∧
  (Org.Teams o = [] ∨
   Filter (teamNamesIn (Org.Name o) teams) (Org.Teams o) ≠ []).

(** The error of a user whom no configured org authorizes. *)
Definition notAuthorized (userName : string) : error :=
  errorString
    ("github: user " +:+ Quote userName +:+ " not in required orgs or teams").

(** Some org of the list has no allow-list and the user as a confirmed
    member. *)
Definition memberOfOpenOrg c client (userName : string) (orgs : list Org.t)
    : bool :=
  existsb
    (λ o, confirmed c client userName (Org.Name o)
          && bool_decide (Org.Teams o = []))
    orgs.

(** Every org of the user, each followed by the claims of the user's
    teams in it, prefixed with the org. *)
Definition allGroups c (orgs : list string) (teams : list team.t)
    : list string :=
  orgs ≫= λ o, o :: (formatTeamName o <$> teamsOfOrg c o teams).

(** What the org list resolves to, given the user's teams. *)
Definition orgListGroups c client (userName : string) (teams : list team.t)
    (orgs : list Org.t) : list string :=
  orgs ≫= orgGroups c client userName teams.
End GroupVocabulary.

(** *** E-mails *)

Section EmailVocabulary.
Context `{!Env}.
Implicit Types (c : githubConnector.t) (e : userEmail.t).

(** An e-mail as the connector reads it: with an enterprise host, every
    e-mail counts as verified. *)
Definition asRead c e : userEmail.t :=
  if decide (c.(githubConnector.hostName) ≠ EmptyString)
  then userEmail.with_Verified e true else e.

(** What follows the first [@] of the address, and whether there is one. *)
Definition domainOf e : string := (Cut (userEmail.Email e) "@").1.2.
Definition hasAt e : bool := (Cut (userEmail.Email e) "@").2.

(** Verified and primary. *)
Definition isFallback e : bool := userEmail.Verified e && userEmail.Primary e.

(** Verified, with a domain the preferred-domain filter accepts. *)
Definition isPreferred c e : bool :=
  userEmail.Verified e && isPreferredEmailDomain c (domainOf e).

(** The e-mails of the preferred domain, in their order; none when no
    preferred domain is configured. *)
Definition preferredOf c (emails : list userEmail.t) : list userEmail.t :=
  if decide (c.(githubConnector.preferredEmailDomain) ≠ EmptyString)
  then filter (λ e, isPreferred c e = true) (asRead c <$> emails)
  else [].

(** The last e-mail that is verified and primary. *)
Definition fallbackOf c (emails : list userEmail.t) : option userEmail.t :=
  last (filter (λ e, isFallback e = true) (asRead c <$> emails)).

Definition noUsableEmail : error :=
  errors_New
    "github: user has no verified, primary email or preferred-domain email".

(** The choice among the e-mails of all pages. *)
Definition chosenEmail c (emails : list userEmail.t) : string * option error :=
  match preferredOf c emails with
  | e :: _ => (userEmail.Email e, None)
  | [] =>
      match fallbackOf c emails with
      | Some e =>
          if decide (userEmail.Email e ≠ EmptyString)
          then (userEmail.Email e, None)
          else (EmptyString, Some noUsableEmail)
      | None => (EmptyString, Some noUsableEmail)
      end
  end.

(** The choice after the loop over the pages, from its variables. *)
Definition finalEmail (primaryEmail : userEmail.t)
    (preferredEmails : list userEmail.t) : string * option error :=
  match preferredEmails with
  | e :: _ => (userEmail.Email e, None)
  | [] =>
      if decide (userEmail.Email primaryEmail ≠ EmptyString)
      then (userEmail.Email primaryEmail, None)
      else (EmptyString, Some noUsableEmail)
  end.

(** With a preferred domain configured, every address holds an [@]. *)
Definition WellFormed c (emails : list userEmail.t) : Prop :=
  c.(githubConnector.preferredEmailDomain) ≠ EmptyString →
  Forall (λ e, hasAt e = true) emails.
End EmailVocabulary.

(** ** A runtime for the examples

    The examples run on a small stand-in for JSON: fields are separated by
    [|] and entries by [,]. *)

Definition example_Quote (s : string) : string := dquote +:+ s +:+ dquote.

Definition example_user (body : string) : user.t * option error :=
  match Split body "|" with
  | [name; login; id; email] =>
      match NilZero.int_of_string id with
      | Some n => (user.mk name login (Z.of_int n) email, None)
      | None => (user.zero, Some (errorString "invalid id"))
      end
  | _ => (user.zero, Some (errorString "invalid user"))
  end.

(** Decoding the entries of a list, the empty body being the empty list. *)
Definition example_list {A : Type} (entry : string → option A) (body : string)
    : list A * option error :=
  if decide (body = EmptyString) then ([], None)
  else match mapM entry (Split body ",") with
       | Some l => (l, None)
       | None => ([], Some (errorString "invalid entry"))
       end.

Definition example_flag (flag : ascii) (flags : string) : bool :=
  bool_decide (flag ∈ list_ascii_of_string flags).

Definition example_userEmail (s : string) : option userEmail.t :=
  match Split s "|" with
  | [email; flags] =>
      Some (userEmail.mk email (example_flag "v" flags) (example_flag "p" flags)
                         "private")
  | _ => None
  end.

Definition example_team (s : string) : option team.t :=
  match Split s "|" with
  | [name; o; slug] => Some (team.mk name (org.mk o) slug)
  | _ => None
  end.

Definition example_org (s : string) : option org.t := Some (org.mk s).

Definition example_Decode {A : Type} (zero : A)
    (parse : string → A * option error) (body : string * option error)
    : A * option error :=
  match body with
  | (data, None) => parse data
  | (_, Some err) => (zero, Some err)
  end.

Definition example_runtime : GoRuntime :=
  {| Quote := example_Quote; NewRequest := λ _, None |}.

Definition example_Env : Env := {|
  env_runtime := example_runtime;
  env_user := {| Decode := example_Decode user.zero example_user |};
  env_emails :=
    {| Decode := example_Decode [] (example_list example_userEmail) |};
  env_teams := {| Decode := example_Decode [] (example_list example_team) |};
  env_orgs := {| Decode := example_Decode [] (example_list example_org) |};
  env_data :=
    {| Unmarshal := λ s, (connectorData.mk s, None);
       Marshal := λ d, (connectorData.AccessToken d, None) |};
|}.

(** A [200 OK] response with the given body and [Link] header. *)
Definition example_ok (body link : string) : DoResult :=
  DoOk (mkResponse 200 "200 OK" link (body, None)).

(** A response with an empty body and the given status. *)
Definition example_status (code : Z) (status : string) : DoResult :=
  DoOk (mkResponse code status EmptyString (EmptyString, None)).

(** An upstream given by a table from URL to response; an unknown URL is
    [404 Not Found]. *)
Fixpoint example_client (table : list (string * DoResult)) : Client :=
  λ url,
    match table with
    | [] => example_status 404 "404 Not Found"
    | (u, r) :: table' =>
        if decide (url = u) then r else example_client table' url
    end.

(** A connector for the public endpoint with nothing else configured. *)
Definition example_connector : githubConnector.t :=
  githubConnector.mk "https://dex.example.com/callback" EmptyString []
    "client-id" "client-secret" apiURL EmptyString EmptyString None
    EmptyString false false EmptyString false.

(** *** An org list

    The orgs [A] (allow-list [x]), [B] and [C] (no allow-list); the user
    [mona] is a confirmed member of [A] and [B] and no member of [C]. *)

Definition example_orgs_connector : githubConnector.t :=
  githubConnector.mk "https://dex.example.com/callback" EmptyString
    [Org.mk "A" ["x"]; Org.mk "B" []; Org.mk "C" []]
    "client-id" "client-secret" apiURL EmptyString EmptyString None
    EmptyString false false EmptyString false.

(** The upstream of a user whose teams are given by [teams]. *)
Definition example_orgs_client (teams : string) : Client :=
  example_client
    [("https://api.github.com/orgs/A/members/mona",
      example_status 204 "204 No Content");
     ("https://api.github.com/orgs/B/members/mona",
      example_status 204 "204 No Content");
     ("https://api.github.com/orgs/C/members/mona",
      example_status 404 "404 Not Found");
     ("https://api.github.com/user/teams", example_ok teams EmptyString)].

(** *** Private e-mails

    A user with two e-mails that are both verified and primary. *)
Definition example_emails_client : Client :=
  example_client
    [("https://api.github.com/user/emails",
      example_ok "a@x.org|vp,b@y.org|vp" EmptyString)].

(** *** A host named [github.com]

    The connector of a configuration with the host name [github.com] and
    the non-disclosing e-mail enabled, and the profile of the user [mona]. *)
Definition example_host_connector : githubConnector.t :=
  githubConnector.mk "https://dex.example.com/callback" EmptyString []
    "client-id" "client-secret" "https://github.com/api/v3" "github.com"
    EmptyString None EmptyString false false EmptyString true.

Definition example_host_client : Client :=
  example_client
    [("https://github.com/api/v3/user",
      example_ok "Mona|mona|42|mona@example.com" EmptyString)].

Definition example_mona : user.t :=
  user.mk "Mona" "mona" 42 "mona@example.com".

(** *** Teams with a name and a slug

    The team [Team X] of the org [A], with the slug [team-x]; the legacy
    single-org filter [A], and the org list with the allow-list [Team X],
    both with the projection mode [both]. *)
Definition example_legacy_connector : githubConnector.t :=
  githubConnector.mk "https://dex.example.com/callback" "A" []
    "client-id" "client-secret" apiURL EmptyString EmptyString None
    "both" false false EmptyString false.

Definition example_allow_connector : githubConnector.t :=
  githubConnector.mk "https://dex.example.com/callback" EmptyString
    [Org.mk "A" ["Team X"]]
    "client-id" "client-secret" apiURL EmptyString EmptyString None
    "both" false false EmptyString false.

Definition example_slug_client : Client :=
  example_client
    [("https://api.github.com/orgs/A/members/mona",
      example_status 204 "204 No Content");
     ("https://api.github.com/user/teams",
      example_ok "Team X|A|team-x" EmptyString)].

(** The org list with the allow-list [Team X], with the projection mode
    [slug]. *)
Definition example_allow_slug_connector : githubConnector.t :=
  githubConnector.mk "https://dex.example.com/callback" EmptyString
    [Org.mk "A" ["Team X"]]
    "client-id" "client-secret" apiURL EmptyString EmptyString None
    "slug" false false EmptyString false.

(** The team [Team X] of the org [A], with the slug [team-x]. *)
Definition example_team_x : team.t :=
  team.mk "Team X" (org.mk "A") "team-x".

(** *** A login

    The provider exchanges the code [abc] for the access token [token],
    and serves the profile of the user [mona], with a public e-mail, to
    the bearer of that token. *)
Definition example_profile_client : Client :=
  example_client
    [("https://api.github.com/user",
      example_ok "Mona|mona|42|mona@example.com" EmptyString)].

Definition example_upstream : Upstream :=
  mkUpstream
    (λ _ _ code,
       if decide (code = "abc") then (oauth2.mkToken "token", None)
       else (oauth2.mkToken EmptyString, Some (errorString "bad code")))
    (λ _ _ token,
       if decide (oauth2.AccessToken token = "token")
       then example_profile_client else example_client []).

Definition example_callback : http_Request.t :=
  http_Request.mk {[ "code" := ["abc"] ]} None.

Definition example_identity : Identity.t :=
  Identity.mk "42" "Old Name" "old-login" "old@example.com" true ["old:group"]
              "token".

(** *** A last page that names itself as the next one *)
Definition example_last_page : string :=
  "https://api.github.com/user/teams?page=2".

Definition example_last_response : Response :=
  mkResponse 200 "200 OK"
    (entry "next" example_last_page +:+ ", " +:+ entry "last" example_last_page)
    (EmptyString, None).

(** ** The configuration and the login URL *)

(** [strings.Contains(s, substr)]: [substr] occurs somewhere in [s]. *)
Fixpoint Contains (s substr : string) : bool :=
  has_prefix substr s
  || match s with
     | EmptyString => false
     | String _ s' => Contains s' substr
     end.

(** [strings.HasSuffix(s, suffix)]: [s] ends with [suffix]. *)
Fixpoint HasSuffix (s suffix : string) : bool :=
  bool_decide (s = suffix)
  || match s with
     | EmptyString => false
     | String _ s' => HasSuffix s' suffix
     end.

(** [Config]: the configuration options of the connector. *)
Module Config.
Record t : Type := mk {
  ClientID : string;
  ClientSecret : string;
  RedirectURI : string;
  Org : string;
  Orgs : list Org.t;
  HostName : string;
  RootCA : string;
  TeamNameField : string;
  LoadAllGroups : bool;
  UseLoginAsID : bool;
  PreferredEmailDomain : string;
  NoreplyPrivateEmail : bool;
}.
End Config.

(** What the connector takes from the packages [pkg/httpclient] and
    [oauth2], whose sources are not given:
    [httpclient.NewHTTPClient(rootCAs, insecureCA)], the client trusting the
    given root certificates, or an error; and [AuthCodeURL] of [oauth2.Config],
    the URL of the provider's consent page for a configuration and a state. *)
Class ConnectorLibs : Type := {
  NewHTTPClient : list string → bool → option http_Client * option error;
  AuthCodeURL : oauth2.Config → string → string;
}.

(** [(c *Config) Open]: the connector of a configuration, or an error and
    no connector; with them, the warnings logged. *)
Definition Open `{!ConnectorLibs} (c : Config.t) (id : string)
    : (option githubConnector.t * option error) * list string :=
  if decide (Config.Org c ≠ EmptyString ∧ 0 < length (Config.Orgs c))%nat then
    ((None,
      Some (errors_New
        "github: cannot use both 'org' and 'orgs' fields simultaneously")),
     [])
  else
    let warnings :=
      if decide (Config.Org c ≠ EmptyString)
      then ["github: legacy field 'org' being used. Switch to the newer 'orgs' field structure"]
      else [] in
    if bool_decide (Config.HostName c ≠ EmptyString)
       && Contains (Config.HostName c) "/"
    then
      ((None,
        Some (errors_New "invalid hostname: hostname cannot contain `/`")),
       warnings)
    else
      let hostName := Config.HostName c in
      let apiURL :=
        if decide (Config.HostName c ≠ EmptyString)
        then "https://" +:+ Config.HostName c +:+ "/api/v3" else apiURL in
      if decide (Config.RootCA c ≠ EmptyString ∧ Config.HostName c = EmptyString)
      then
        ((None,
          Some (errors_New
            "invalid connector config: Host name field required for a root certificate file")),
         warnings)
      else
        let '(httpClient, err) :=
          if decide (Config.RootCA c ≠ EmptyString)
          then NewHTTPClient [Config.RootCA c] false
          else (None, None) in
        match err with
        | Some err =>
            ((None, Some (Errorf_v "failed to create HTTP client: " err)),
             warnings)
        | None =>
            if bool_decide (Config.TeamNameField c ∈ ["name"; "slug"; "both"; EmptyString])
            then
              if bool_decide (Config.PreferredEmailDomain c ≠ EmptyString)
                 && HasSuffix (Config.PreferredEmailDomain c) "*"
              then
                ((None,
                  Some (errors_New
                    ("invalid PreferredEmailDomain: glob pattern cannot end with "
                       +:+ dquote +:+ "*" +:+ dquote))),
                 warnings)
              else
                ((Some
                    (githubConnector.mk
                       (Config.RedirectURI c) (Config.Org c) (Config.Orgs c)
                       (Config.ClientID c) (Config.ClientSecret c) apiURL
                       hostName (Config.RootCA c) httpClient
                       (Config.TeamNameField c) (Config.LoadAllGroups c)
                       (Config.UseLoginAsID c) (Config.PreferredEmailDomain c)
                       (Config.NoreplyPrivateEmail c)),
                  None),
                 warnings)
            else
              ((None,
                Some (errorString
                  ("invalid connector config: unsupported team name field value `"
                     +:+ Config.TeamNameField c +:+ "`"))),
               warnings)
        end.

(** [LoginURL]: the URL of the consent page, or an error when the callback
    URL is not the configured one. *)
Definition LoginURL `{!Env} `{!ConnectorLibs} (c : githubConnector.t)
    (scopes : Scopes.t) (callbackURL state : string) : string * option error :=
  if decide (c.(githubConnector.redirectURI) ≠ callbackURL) then
    (EmptyString,
     Some (errorString
       ("expected callback URL " +:+ Quote callbackURL
          +:+ " did not match the URL in the config "
          +:+ Quote c.(githubConnector.redirectURI))))
  else (AuthCodeURL (oauth2Config c scopes) state, None).

(** *** Crawls and well-formed headers *)

(** Starting at [url], the upstream serves, one GET each, the pages of
    [visits], each with the URL it was fetched from; the last one names no
    next page. *)
Inductive Crawl {A : Type} `{!GoRuntime} `{!JSON (list A)} (client : Client)
    : string → list (string * list A) → Prop :=
| Crawl_last (url : string) (page : list A) :
    returns (get client url []) = Some (page, EmptyString, None) →
    Crawl client url [(url, page)]
| Crawl_next (url next : string) (page : list A)
    (rest : list (string * list A)) :
    returns (get client url []) = Some (page, next, None) →
    next ≠ EmptyString →
    Crawl client next rest →
    Crawl client url ((url, page) :: rest).

(** Starting at [url], the upstream serves the pages [pages], the last of
    them naming [next] as the page to fetch next. *)
Inductive PagesTo {A : Type} `{!GoRuntime} `{!JSON (list A)} (client : Client)
    : string → list (list A) → string → Prop :=
| PagesTo_nil (url : string) : PagesTo client url [] url
| PagesTo_cons (url next final : string) (page : list A)
    (rest : list (list A)) :
    returns (get client url []) = Some (page, next, None) →
    next ≠ EmptyString →
    PagesTo client next rest final →
    PagesTo client url (page :: rest) final.

(** No byte of the string is the given one. *)
Fixpoint lacks (a : ascii) (s : string) : bool :=
  match s with
  | EmptyString => true
  | String b s' => bool_decide (b ≠ a) && lacks a s'
  end.

(** A link of a [Link] header: a relation name and a URL. *)
Definition link : Type := string * string.

(** The link can be written as [<url>; rel="name"]: the URL is not empty
    and holds no [>], the name holds no [<] and no double quote. *)
Definition WellFormedLink (l : link) : Prop :=
  l.2 ≠ EmptyString ∧ no_gt l.2 = true ∧
  lacks lt_sign l.1 = true ∧ lacks (Ascii.ascii_of_nat 34) l.1 = true.

(** The header value with the given links, separated by a comma and a
    space. *)
Definition renderLinks (links : list link) : string :=
  String.concat ", " (map (λ l : link, entry l.1 l.2) links).

(** The URL of the first link with the relation [name]. *)
Fixpoint linkOf (name : string) (links : list link) : option string :=
  match links with
  | [] => None
  | l :: links' => if decide (l.1 = name) then Some l.2 else linkOf name links'
  end.

(** ** Further examples *)

(** A [Link] header as the provider writes it, on the second of five
    pages. *)
Definition example_links : list link :=
  [("prev", "https://api.github.com/user/teams?page=1");
   ("next", "https://api.github.com/user/teams?page=3");
   ("last", "https://api.github.com/user/teams?page=5");
   ("first", "https://api.github.com/user/teams?page=1")].

Definition example_links_response : Response :=
  mkResponse 200 "200 OK" (renderLinks example_links) (EmptyString, None).

(** A first page of teams that names itself as the last page, and another
    page as the next one. *)
Definition example_self_last_response : Response :=
  mkResponse 200 "200 OK"
    (renderLinks [("next", "https://api.github.com/user/teams?page=2");
                  ("last", "https://api.github.com/user/teams")])
    ("x|A|x", None).

Definition example_self_last_client : Client :=
  example_client
    [("https://api.github.com/user/teams", DoOk example_self_last_response);
     ("https://api.github.com/user/teams?page=2",
      example_ok "y|A|y" EmptyString)].

(** Two pages of teams; and two pages of which the second is not served. *)
Definition example_two_pages_client : Client :=
  example_client
    [("https://api.github.com/user/teams",
      example_ok "x|A|x"
        (renderLinks [("next", "https://api.github.com/user/teams?page=2");
                      ("last", "https://api.github.com/user/teams?page=2")]));
     ("https://api.github.com/user/teams?page=2",
      example_ok "y|A|y"
        (renderLinks [("prev", "https://api.github.com/user/teams");
                      ("last", "https://api.github.com/user/teams?page=2")]))].

Definition example_broken_page_client : Client :=
  example_client
    [("https://api.github.com/user/teams",
      example_ok "x|A|x"
        (renderLinks [("next", "https://api.github.com/user/teams?page=2");
                      ("last", "https://api.github.com/user/teams?page=2")]));
     ("https://api.github.com/user/teams?page=2",
      example_status 502 "502 Bad Gateway")].

(** The org list [A] (allow-list [x]), [B]: the user is a confirmed
    member of [A], and the membership check of [B] is answered
    [500 Internal Server Error]. *)
Definition example_hard_error_connector : githubConnector.t :=
  githubConnector.mk "https://dex.example.com/callback" EmptyString
    [Org.mk "A" ["x"]; Org.mk "B" []]
    "client-id" "client-secret" apiURL EmptyString EmptyString None
    EmptyString false false EmptyString false.

Definition example_hard_error_client : Client :=
  example_client
    [("https://api.github.com/orgs/A/members/mona",
      example_status 204 "204 No Content");
     ("https://api.github.com/orgs/B/members/mona",
      example_status 500 "500 Internal Server Error");
     ("https://api.github.com/user/teams", example_ok "x|A|x" EmptyString)].

(** The user is in the org [A] and in the teams [x] of [A] and [z] of [Z],
    an org the org listing does not have; all groups are loaded. *)
Definition example_load_all_connector : githubConnector.t :=
  githubConnector.mk "https://dex.example.com/callback" EmptyString []
    "client-id" "client-secret" apiURL EmptyString EmptyString None
    EmptyString true false EmptyString false.

Definition example_load_all_client : Client :=
  example_client
    [("https://api.github.com/user/orgs", example_ok "A" EmptyString);
     ("https://api.github.com/user/teams",
      example_ok "x|A|x,z|Z|z" EmptyString)].

(** Two e-mails are the same but for the verification flag. *)
Definition sameButVerified (e e' : userEmail.t) : Prop :=
  userEmail.Email e = userEmail.Email e' ∧
  userEmail.Primary e = userEmail.Primary e' ∧
  userEmail.Visibility e = userEmail.Visibility e'.

(** The connector of the enterprise host [ghe.example.com], and two
    upstreams that differ in the verification of the primary e-mail. *)
Definition example_enterprise_connector : githubConnector.t :=
  githubConnector.mk "https://dex.example.com/callback" EmptyString []
    "client-id" "client-secret" "https://ghe.example.com/api/v3"
    "ghe.example.com" EmptyString None EmptyString false false EmptyString
    false.

Definition example_enterprise_client (flags : string) : Client :=
  example_client
    [("https://ghe.example.com/api/v3/user/emails",
      example_ok ("mona@corp.example.com|" +:+ flags) EmptyString)].

(** A connector that prefers the domain [corp.example.com], and a user
    with a public e-mail elsewhere; one of the private e-mails has no [@]. *)
Definition example_preferred_connector : githubConnector.t :=
  githubConnector.mk "https://dex.example.com/callback" EmptyString []
    "client-id" "client-secret" apiURL EmptyString EmptyString None
    EmptyString false false "corp.example.com" false.

Definition example_preferred_client (emails : string) : Client :=
  example_client
    [("https://api.github.com/user",
      example_ok "Mona|mona|42|mona@example.com" EmptyString);
     ("https://api.github.com/user/emails", example_ok emails EmptyString)].

(** The configuration is one that [Open] refuses. *)
Definition Rejected `{!ConnectorLibs} (c : Config.t) : Prop :=
  (Config.Org c ≠ EmptyString ∧ Config.Orgs c ≠ [])
  ∨ (∃ pre post, Config.HostName c = pre +:+ "/" +:+ post)
  ∨ (Config.RootCA c ≠ EmptyString ∧ Config.HostName c = EmptyString)
  ∨ (Config.RootCA c ≠ EmptyString
     ∧ (NewHTTPClient [Config.RootCA c] false).2 ≠ None)
  ∨ Config.TeamNameField c ∉ ["name"; "slug"; "both"; EmptyString]
  ∨ (∃ pre, Config.PreferredEmailDomain c = pre +:+ "*").

(** Libraries for the examples: every root certificate is accepted, and
    the consent page is the authorization URL with the state. *)
Definition example_libs : ConnectorLibs :=
  {| NewHTTPClient := λ roots _, (Some (trusting (default EmptyString (head roots))), None);
     AuthCodeURL := λ cfg state,
       Endpoint.AuthURL (oauth2.Endpoint cfg) +:+ "?state=" +:+ state |}.

(** The configuration of an enterprise host with an org list and a
    preferred domain. *)
Definition example_config : Config.t :=
  Config.mk "client-id" "client-secret" "https://dex.example.com/callback"
    EmptyString [Org.mk "A" ["x"]] "ghe.example.com" "/etc/dex/ca.pem" "slug"
    false false "*.example.com" false.

(** A configuration with a path in the host name. *)
Definition example_bad_config : Config.t :=
  Config.mk "client-id" "client-secret" "https://dex.example.com/callback"
    EmptyString [] "ghe.example.com/api" EmptyString EmptyString
    false false EmptyString false.


(** The context [HandleCallback] works in: the one of the request, with
    the connector's own HTTP client when it has one. *)
Definition callbackContext (c : githubConnector.t) (r : http_Request.t)
    : Context :=
  match c.(githubConnector.httpClient) with
  | Some hc => Some hc
  | None => http_Request.Context r
  end.


(** * Verified properties *)

(** ** Strings *)

Lemma append_cons (a : ascii) (s t : string) :
  String a s +:+ t = String a (s +:+ t).
Proof. reflexivity. Qed.

Lemma append_nil_l (t : string) : EmptyString +:+ t = t.
Proof. reflexivity. Qed.

Lemma append_assoc (s1 s2 s3 : string) :
  (s1 +:+ s2) +:+ s3 = s1 +:+ (s2 +:+ s3).
Proof.
  induction s1 as [|a s1 IH]; [done|]. by rewrite !append_cons, IH.
Qed.

Lemma has_prefix_spec (p s : string) :
  has_prefix p s = true ↔ ∃ post, s = p +:+ post.
Proof.
  revert s. induction p as [|a p IH]; intros s; simpl.
  - split; [intros _; by exists s | done].
  - destruct s as [|b s].
    + split; [done | intros [post Hpost]; discriminate].
    + rewrite andb_true_iff, bool_decide_eq_true, IH. split.
      * intros [-> [post ->]]. by exists post.
      * intros [post Hpost]. rewrite append_cons in Hpost.
        injection Hpost as -> ->. eauto.
Qed.

Lemma span_url_append (s : string) :
  ∀ u rest, span_url s = (u, rest) → s = u +:+ rest ∧ no_gt u = true.
Proof.
  induction s as [|a s IH]; simpl; intros u rest.
  - by intros [= <- <-].
  - destruct (decide (a = gt_sign)) as [->|Ha].
    + by intros [= <- <-].
    + destruct (span_url s) as [u0 rest0] eqn:Hs. intros [= <- <-].
      destruct (IH u0 rest0 eq_refl) as [-> Hu]. rewrite append_cons. simpl.
      rewrite Hu, bool_decide_eq_true_2 by done. done.
Qed.

Lemma span_url_stop (u t : string) :
  no_gt u = true → span_url (u +:+ String gt_sign t) = (u, String gt_sign t).
Proof.
  induction u as [|a u IH].
  - intros _. reflexivity.
  - simpl. rewrite andb_true_iff, bool_decide_eq_true. intros [Ha Hu].
    rewrite decide_False by done. by rewrite IH.
Qed.

Lemma rel_tail_gt (name : string) :
  ∃ t, rel_tail name = String gt_sign t.
Proof. unfold rel_tail. eexists. reflexivity. Qed.

(** A match at the start of the header is an entry at its start. *)
Lemma match_here_spec (name s whole u : string) :
  match_here (MustCompile (rel_tail name)) s = Some (whole, u) ↔
  whole = entry name u ∧ OccursAt name s EmptyString u.
Proof.
  unfold match_here, OccursAt, entry. simpl re_tail.
  destruct (rel_tail_gt name) as [t Ht]. split.
  - destruct s as [|a s]; [done|].
    destruct (decide (a = lt_sign)) as [->|]; [|done].
    destruct (span_url s) as [u0 rest] eqn:Hspan.
    destruct (span_url_append _ _ _ Hspan) as [-> Hgt].
    destruct (decide (u0 = EmptyString)); [done|].
    destruct (has_prefix (rel_tail name) rest) eqn:Hpre; [|done].
    intros [= <- <-]. apply has_prefix_spec in Hpre as [post ->].
    repeat split; try done. exists post.
    by rewrite append_nil_l, !append_cons, !append_assoc.
  - intros (-> & Hu & Hgt & post & ->).
    rewrite append_nil_l, !append_cons, !append_assoc.
    rewrite decide_True by done. rewrite Ht, append_cons.
    rewrite span_url_stop by done. rewrite decide_False by done.
    rewrite <- append_cons, <- Ht.
    assert (has_prefix (rel_tail name) (rel_tail name +:+ post) = true) as ->
      by (apply has_prefix_spec; eauto).
    done.
Qed.

Lemma OccursAt_cons (name : string) (a : ascii) (s pre u : string) :
  OccursAt name (String a s) (String a pre) u ↔ OccursAt name s pre u.
Proof.
  unfold OccursAt. split; intros (Hu & Hgt & post & Hs); repeat split; try done;
    exists post.
  - rewrite append_cons in Hs. congruence.
  - rewrite append_cons. congruence.
Qed.

Lemma OccursAt_inv (name : string) (a : ascii) (s pre u : string) :
  OccursAt name (String a s) pre u →
  pre = EmptyString ∨ ∃ pre0, pre = String a pre0 ∧ OccursAt name s pre0 u.
Proof.
  destruct pre as [|b pre0]; [by left|]. intros H. right. exists pre0.
  assert (b = a) as ->.
  { destruct H as (_ & _ & post & Hs). rewrite append_cons in Hs. congruence. }
  split; [done|]. exact (proj1 (OccursAt_cons _ _ _ _ _) H).
Qed.

Lemma OccursAt_empty (name pre u : string) :
  OccursAt name EmptyString pre u → False.
Proof.
  intros (_ & _ & post & Hs). destruct pre; [|discriminate].
  rewrite append_nil_l in Hs. unfold entry in Hs. rewrite append_cons in Hs.
  discriminate.
Qed.

Lemma FindStringSubmatch_unfold (re : regexp) (s : string) :
  FindStringSubmatch re s =
    match match_here re s with
    | Some (whole, u) => [whole; u]
    | None =>
        match s with
        | EmptyString => []
        | String _ s' => FindStringSubmatch re s'
        end
    end.
Proof. by destruct s. Qed.

(** The search reports nothing when the relation is absent, and otherwise
    the leftmost entry of the relation. *)
Lemma FindStringSubmatch_spec (name links : string) :
  (FindStringSubmatch (MustCompile (rel_tail name)) links = [] ∧
   NoRel name links) ∨
  (∃ pre u,
     FindStringSubmatch (MustCompile (rel_tail name)) links = [entry name u; u] ∧
     OccursAt name links pre u ∧
     ∀ pre' u', OccursAt name links pre' u' →
       (String.length pre ≤ String.length pre')%nat ∧
       (String.length pre' = String.length pre → u' = u)).
Proof.
  induction links as [|a s IH].
  - left. split; [done|]. intros pre u H. by apply OccursAt_empty in H.
  - rewrite FindStringSubmatch_unfold.
    destruct (match_here (MustCompile (rel_tail name)) (String a s))
      as [[whole u]|] eqn:Hm.
    + right. exists EmptyString, u.
      pose proof (proj1 (match_here_spec _ _ _ _) Hm) as [-> Hocc].
      split; [done|]. split; [done|]. intros pre' u' Hocc'. split.
      * simpl. lia.
      * destruct pre'; [|done]. intros _.
        pose proof (proj2 (match_here_spec name _ _ _) (conj eq_refl Hocc'))
          as Hm'.
        congruence.
    + assert (∀ u, ¬ OccursAt name (String a s) EmptyString u) as Hnone.
      { intros u Hocc.
        pose proof (proj2 (match_here_spec name _ _ _) (conj eq_refl Hocc)).
        congruence. }
      destruct IH as [[Hfind Hno]|(pre & u & Hfind & Hocc & Hleft)].
      * left. split; [done|]. intros pre u Hocc.
        destruct (OccursAt_inv _ _ _ _ _ Hocc) as [->|(pre0 & -> & Hocc0)].
        -- by apply Hnone in Hocc.
        -- by apply Hno in Hocc0.
      * right. exists (String a pre), u. split; [done|].
        split; [by apply OccursAt_cons|].
        intros pre' u' Hocc'. 
        destruct (OccursAt_inv _ _ _ _ _ Hocc') as [->|(pre0 & -> & Hocc0)].
        -- by apply Hnone in Hocc'.
        -- destruct (Hleft _ _ Hocc0) as [Hle Heq]. simpl. split; [lia|].
           intros [=]. auto.
Qed.

Lemma FindStringSubmatch_NoRel (name links : string) :
  NoRel name links →
  FindStringSubmatch (MustCompile (rel_tail name)) links = [].
Proof.
  intros Hno.
  destruct (FindStringSubmatch_spec name links)
    as [[Hfind _]|(pre & u & _ & Hocc & _)]; [done|].
  by apply Hno in Hocc.
Qed.

Lemma FindStringSubmatch_FirstRel (name links url : string) :
  FirstRel name links url →
  FindStringSubmatch (MustCompile (rel_tail name)) links = [entry name url; url].
Proof.
  intros (pre & Hocc & Hleft).
  destruct (FindStringSubmatch_spec name links)
    as [[_ Hno]|(pre0 & u & Hfind & Hocc0 & Hleft0)].
  - by apply Hno in Hocc.
  - destruct (Hleft0 _ _ Hocc) as [Hle Heq]. specialize (Hleft _ _ Hocc0).
    by rewrite Heq by lia.
Qed.

Lemma FirstRel_of_find (name links whole url : string) :
  FindStringSubmatch (MustCompile (rel_tail name)) links = [whole; url] →
  FirstRel name links url.
Proof.
  intros Hfind.
  destruct (FindStringSubmatch_spec name links)
    as [[Hnil _]|(pre & u & Hfind' & Hocc & Hleft)]; [congruence|].
  assert (u = url) as -> by congruence.
  exists pre. split; [done|]. intros pre' u' Hocc'.
  by destruct (Hleft _ _ Hocc').
Qed.

Lemma NoRel_of_find (name links : string) :
  FindStringSubmatch (MustCompile (rel_tail name)) links = [] →
  NoRel name links.
Proof.
  intros Hfind.
  destruct (FindStringSubmatch_spec name links)
    as [[_ Hno]|(pre & u & Hfind' & _)]; [done|congruence].
Qed.

(** ** The paginated fetcher *)

(** C5.  Whatever the response header and the URL just fetched:
    [getPagination] returns the empty string when the header has no
    relation [last]; it returns the empty string when the header has a
    relation [last] whose URL is the URL just fetched, whether or not a
    relation [next] is there; otherwise it returns the URL of the relation
    [next] when there is one, and the empty string when there is none. *)
Theorem getPagination_relations (apiURL : string) (resp : Response) :
  (NoRel "last" (Header_Link resp) →
     getPagination apiURL (Some resp) = EmptyString) ∧
  (∀ last, FirstRel "last" (Header_Link resp) last →
     (apiURL = last → getPagination apiURL (Some resp) = EmptyString) ∧
     (apiURL ≠ last →
        (∀ next, FirstRel "next" (Header_Link resp) next →
                 getPagination apiURL (Some resp) = next) ∧
        (NoRel "next" (Header_Link resp) →
           getPagination apiURL (Some resp) = EmptyString))).
Proof.
  unfold getPagination. set (links := Header_Link resp).
  unfold reLast, reNext. split.
  - intros Hno. by rewrite (FindStringSubmatch_NoRel _ _ Hno).
  - intros last Hlast. rewrite (FindStringSubmatch_FirstRel _ _ _ Hlast).
    simpl. split.
    + intros ->. by rewrite decide_True.
    + intros Hne. rewrite decide_False by done. split.
      * intros next Hnext. by rewrite (FindStringSubmatch_FirstRel _ _ _ Hnext).
      * intros Hno. by rewrite (FindStringSubmatch_NoRel _ _ Hno).
Qed.

(** ** The e-mail resolution policy *)

(** [Split] cuts at every separator and nowhere else: joining the fields
    with the separator gives the string back, and no field holds one. *)
Lemma Split_nonempty (s : string) (sep : ascii) : Split s sep ≠ [].
Proof.
  destruct s as [|a s]; simpl; [done|].
  destruct (decide (a = sep)); [done|]. by destruct (Split s sep).
Qed.

Lemma Split_concat (s : string) (sep : ascii) :
  String.concat (String sep EmptyString) (Split s sep) = s.
Proof.
  induction s as [|a s IH]; [done|]. simpl Split.
  pose proof (Split_nonempty s sep) as Hne.
  destruct (Split s sep) as [|p ps] eqn:Hs; [done|].
  destruct (decide (a = sep)) as [->|Ha].
  - change (String sep (String.concat (String sep EmptyString) (p :: ps))
            = String sep s).
    by rewrite IH.
  - destruct ps as [|p' ps].
    + simpl in *. by rewrite IH.
    + change (String a (String.concat (String sep EmptyString) (p :: p' :: ps))
              = String a s).
      by rewrite IH.
Qed.

Lemma Split_fields (s : string) (sep : ascii) :
  Forall (λ p, sep ∉ list_ascii_of_string p) (Split s sep).
Proof.
  induction s as [|a s IH]; simpl.
  - constructor; [apply not_elem_of_nil | constructor].
  - destruct (decide (a = sep)) as [->|Ha].
    + constructor; [apply not_elem_of_nil | done].
    + destruct (Split s sep) as [|p ps].
      * constructor; [|constructor]. simpl.
        apply not_elem_of_cons. split; [done | apply not_elem_of_nil].
      * inversion IH; subst. constructor; [|done].
        simpl. by apply not_elem_of_cons.
Qed.

Lemma isPreferredEmailDomain_range_spec (domainParts : list string) :
  ∀ (preferredDomainParts : list string) (i : nat),
    length (drop i domainParts) = length preferredDomainParts →
    isPreferredEmailDomain_range domainParts i preferredDomainParts = true ↔
    Forall2 label_matches preferredDomainParts (drop i domainParts).
Proof.
  induction preferredDomainParts as [|v rest IH]; intros i Hlen; simpl.
  - apply nil_length_inv in Hlen as ->. split; [constructor | done].
  - destruct (domainParts !! i) as [d|] eqn:Hd.
    2: { apply lookup_ge_None in Hd. rewrite drop_ge in Hlen by done. done. }
    rewrite (drop_S _ _ _ Hd) in *. simpl in Hlen.
    unfold index. rewrite (list_lookup_total_correct _ _ _ Hd).
    rewrite Forall2_cons. unfold label_matches at 1.
    destruct (decide (d = v)) as [->|Hdv].
    + rewrite bool_decide_eq_false_2 by (intros ?; congruence). simpl.
      rewrite IH by lia. intuition congruence.
    + rewrite (bool_decide_eq_true_2 (d ≠ v)) by done. simpl.
      destruct (decide (v = "*")) as [->|Hv].
      * rewrite bool_decide_eq_false_2 by (intros ?; congruence).
        rewrite IH by lia. intuition congruence.
      * rewrite bool_decide_eq_true_2 by done. intuition congruence.
Qed.

Section Email.
Context `{!Env}.

(** C8.  The comparator accepts a candidate domain exactly when it is
    the configured glob itself, or both split at the dots into equally
    many labels and every label of the glob is the label of the
    candidate at its place or is the wildcard [*].  So [*.example.com]
    accepts [mail.example.com] and neither [example.com] nor
    [mail.example.org]. *)
Theorem isPreferredEmailDomain_labels :
  (∀ (c : githubConnector.t) (domain : string),
     isPreferredEmailDomain c domain = true ↔
     domain = c.(githubConnector.preferredEmailDomain) ∨
     (length (Split c.(githubConnector.preferredEmailDomain) ".")
        = length (Split domain ".") ∧
      Forall2 label_matches
        (Split c.(githubConnector.preferredEmailDomain) ".")
        (Split domain "."))) ∧
  (∀ c : githubConnector.t,
     let c' := githubConnector.with_preferredEmailDomain c "*.example.com" in
     isPreferredEmailDomain c' "mail.example.com" = true ∧
     isPreferredEmailDomain c' "example.com" = false ∧
     isPreferredEmailDomain c' "mail.example.org" = false).
Proof.
  split.
  - intros c domain. unfold isPreferredEmailDomain.
    destruct (decide (domain = _)) as [->|Hne]; [tauto|].
    destruct (decide (length _ ≠ length _)) as [Hlen|Hlen].
    + intuition congruence.
    + apply dec_stable in Hlen.
      rewrite (isPreferredEmailDomain_range_spec _ _ 0) by by rewrite drop_0.
      rewrite drop_0. intuition congruence.
  - intros c c'. by vm_compute.
Qed.
End Email.

(** ** Computations *)

Lemma returns_bind {A B : Type} (m : M A) (k : A → M B) :
  returns (bind m k) = returns m ≫= λ a, returns (k a).
Proof.
  destruct m as [[a l]|]; [|done]. simpl. by destruct (k a) as [[b l']|].
Qed.

Lemma returns_bind_Some {A B : Type} (m : M A) (k : A → M B) (a : A) :
  returns m = Some a → returns (bind m k) = returns (k a).
Proof. intros Hm. by rewrite returns_bind, Hm. Qed.

(** ** The single-page fetch *)

Section Get.
Context {A : Type} `{!GoRuntime} `{!JSON A}.

(** What [get] does with a response that arrived. *)
Lemma get_response (client : Client) (apiURL : string) (v : A)
    (resp : Response) :
  NewRequest apiURL = None →
  client apiURL = DoOk resp →
  get client apiURL v =
    Some (if decide (StatusCode resp = StatusOK) then
            match Decode (Body resp) with
            | (v', Some err) =>
                (v', EmptyString,
                 Some (Errorf_v "failed to decode response: " err))
            | (v', None) => (v', getPagination apiURL (Some resp), None)
            end
          else
            match Body resp with
            | (_, Some err) =>
                (v, EmptyString, Some (Errorf_v "github: read body: " err))
            | (body, None) =>
                (v, EmptyString,
                 Some (errorString (Status resp +:+ ": " +:+ body)))
            end,
          [Request apiURL]).
Proof.
  intros Hreq Hdo. unfold get. rewrite Hreq. simpl. rewrite Hdo.
  destruct (decide (StatusCode resp = StatusOK)) as [Hs|Hs].
  - rewrite decide_False by (intros ?; done).
    by destruct (Decode (Body resp)) as [v' [err|]].
  - rewrite decide_True by done. unfold ReadAll.
    by destruct (Body resp) as [body [err|]].
Qed.

(** C4, as amended.  For every response whose body can be read, [get]
    returns an error exactly when the status is not [200] or the body of
    a [200] response does not decode.  With a status other than [200],
    the other 2xx ones included, the error carries the status line and
    the raw body; a [200] response is accepted and its body decoded, the
    decoded value coming with the URL of the next page. *)
Theorem get_status (client : Client) (apiURL : string) (v : A)
    (resp : Response) (body : string) :
  NewRequest apiURL = None →
  client apiURL = DoOk resp →
  Body resp = (body, None) →
  (StatusCode resp ≠ StatusOK →
     returns (get client apiURL v) =
       Some (v, EmptyString,
             Some (errorString (Status resp +:+ ": " +:+ body)))) ∧
  (StatusCode resp = StatusOK →
     returns (get client apiURL v) =
       Some (match Decode (Body resp) with
             | (v', Some err) =>
                 (v', EmptyString,
                  Some (Errorf_v "failed to decode response: " err))
             | (v', None) => (v', getPagination apiURL (Some resp), None)
             end)) ∧
  ((∃ v' next err, returns (get client apiURL v) = Some (v', next, Some err))
     ↔ StatusCode resp ≠ StatusOK ∨ (Decode (Body resp)).2 ≠ None).
Proof.
  intros Hreq Hdo Hbody. rewrite (get_response _ _ _ _ Hreq Hdo).
  unfold returns. simpl. rewrite Hbody.
  destruct (decide (StatusCode resp = StatusOK)) as [Hs|Hs].
  - split; [done|]. split; [done|].
    destruct (Decode (body, None)) as [v' [err|]]; simpl.
    + split; [intros _; by right | intros _; eauto].
    + split; [by intros (? & ? & ? & [=]) | by intros [?|?]].
  - split; [done|]. split; [done|]. split; [by left | eauto].
Qed.
End Get.

Section Examples.
#[local] Existing Instance example_Env.

(** C4, as stated, fails: a [204 No Content] response is a 2xx response,
    and [get] returns an error for it. *)
Lemma get_rejects_204 :
  let resp := mkResponse 204 "204 No Content" EmptyString (EmptyString, None) in
  (200 ≤ StatusCode resp < 300) ∧
  returns (get (λ _, DoOk resp) "https://api.github.com/user" user.zero)
    = Some (user.zero, EmptyString,
            Some (errorString "204 No Content: ")).
Proof. split; [done | reflexivity]. Qed.

Lemma get_status_witness :
  returns (get (λ _, example_status 204 "204 No Content")
               "https://api.github.com/user" user.zero)
    = Some (user.zero, EmptyString, Some (errorString "204 No Content: ")).
Proof.
  exact (proj1 (get_status (λ _, example_status 204 "204 No Content")
                  "https://api.github.com/user" user.zero
                  (mkResponse 204 "204 No Content" EmptyString
                              (EmptyString, None))
                  EmptyString eq_refl eq_refl eq_refl)
               ltac:(done)).
Defined.
End Examples.

(** ** Loops over pages *)

Lemma fold_left_snoc {A B : Type} (f : A → B) (l : list A) (acc : list B) :
  fold_left (λ acc x, acc ++ [f x]) l acc = acc ++ (f <$> l).
Proof.
  revert acc. induction l as [|x l IH]; intros acc; simpl.
  - by rewrite app_nil_r.
  - by rewrite IH, <- app_assoc.
Qed.

Lemma fold_left_filter_bind {A B : Type} (P : A → Prop) `{!∀ x, Decision (P x)}
    (f : A → list B) (l : list A) (acc : list B) :
  fold_left (λ acc x, if decide (P x) then acc ++ f x else acc) l acc
    = acc ++ (filter P l ≫= f).
Proof.
  revert acc. induction l as [|x l IH]; intros acc; simpl.
  - by rewrite app_nil_r.
  - rewrite IH, filter_cons. destruct (decide (P x)); [|done].
    by rewrite bind_cons, app_assoc.
Qed.

Section Loops.
Context `{!Env}.
Implicit Types (c : githubConnector.t) (client : Client).

Lemma teamsOfOrg_app c (orgName : string) (ts1 ts2 : list team.t) :
  teamsOfOrg c orgName (ts1 ++ ts2)
    = teamsOfOrg c orgName ts1 ++ teamsOfOrg c orgName ts2.
Proof. unfold teamsOfOrg. by rewrite filter_app, bind_app. Qed.

Lemma teamsForOrg_loop_pages c client (orgName : string) (url : string)
    (pages : list (list team.t)) :
  Pages client url pages →
  ∀ (fuel : nat) (groups : list string),
    (length pages ≤ fuel)%nat →
    returns (teamsForOrg_loop fuel c client orgName url groups)
      = Some (groups ++ teamsOfOrg c orgName (concat pages), None).
Proof.
  induction 1 as [url page Hget|url next page rest Hget Hnext _ IH];
    intros [|fuel] groups Hfuel; simpl in Hfuel; try lia;
    simpl teamsForOrg_loop; rewrite (returns_bind_Some _ _ _ Hget);
    rewrite fold_left_filter_bind.
  - rewrite decide_True by done. simpl concat. by rewrite app_nil_r.
  - rewrite decide_False by done. rewrite IH by lia.
    simpl concat. by rewrite teamsOfOrg_app, app_assoc.
Qed.

(** With the team pages served, [teamsForOrg] returns the claims of the
    teams of the org, page after page. *)
Lemma teamsForOrg_pages c client (orgName : string)
    (pages : list (list team.t)) (fuel : nat) :
  Pages client (c.(githubConnector.apiURL) +:+ "/user/teams") pages →
  (length pages ≤ fuel)%nat →
  returns (teamsForOrg fuel c client orgName)
    = Some (teamsOfOrg c orgName (concat pages), None).
Proof.
  intros Hpages Hfuel. unfold teamsForOrg.
  by rewrite (teamsForOrg_loop_pages _ _ _ _ _ Hpages).
Qed.
End Loops.

(** ** The org list *)

Section OrgList.
Context `{!Env}.
Implicit Types (c : githubConnector.t) (client : Client).

(** A conclusive membership check is no error, and tells whether the
    user is a confirmed member. *)
Lemma userInOrg_conclusive c client (userName orgName : string) :
  Conclusive c client userName orgName →
  returns (userInOrg c client userName orgName)
    = Some (confirmed c client userName orgName, None).
Proof.
  intros (Hreq & resp & Hdo & Hstatus).
  unfold userInOrg, confirmed. fold (membershipURL c userName orgName).
  rewrite Hreq, Hdo. simpl.
  destruct (decide (StatusCode resp = StatusNoContent)) as [Hs|Hs]; [done|].
  rewrite decide_True by tauto. done.
Qed.

(** The loop over the configured orgs, from any state of its
    variables. *)
Lemma groupsForOrgs_range_spec c client (userName : string)
    (pages : list (list team.t)) (fuel : nat) :
  ∀ (orgs : list Org.t) (groups : list string) (inOrgNoTeams : bool),
    (∀ o, o ∈ orgs → Conclusive c client userName (Org.Name o)) →
    ((∃ o, o ∈ orgs ∧ confirmed c client userName (Org.Name o) = true) →
     Pages client (c.(githubConnector.apiURL) +:+ "/user/teams") pages ∧
     (length pages ≤ fuel)%nat) →
    returns (groupsForOrgs_range fuel c client userName orgs groups
               inOrgNoTeams)
      = Some (let groups' :=
                groups ++ orgListGroups c client userName (concat pages) orgs in
              if inOrgNoTeams || memberOfOpenOrg c client userName orgs
                 || bool_decide (0 < length groups')%nat
              then (groups', None)
              else (groups', Some (notAuthorized userName))).
Proof.
  induction orgs as [|o orgs IH]; intros groups inOrgNoTeams Hconcl Hteams.
  - simpl. unfold orgListGroups. simpl. rewrite app_nil_r, orb_false_r.
    by destruct (inOrgNoTeams || _).
  - simpl groupsForOrgs_range.
    rewrite (returns_bind_Some _ _ _
               (userInOrg_conclusive _ _ _ _ (Hconcl o ltac:(left)))).
    assert (∀ o', o' ∈ orgs → Conclusive c client userName (Org.Name o'))
      as Hconcl' by (intros o' Ho'; apply Hconcl; by right).
    assert ((∃ o', o' ∈ orgs ∧ confirmed c client userName (Org.Name o') = true)
            → Pages client (c.(githubConnector.apiURL) +:+ "/user/teams") pages
              ∧ (length pages ≤ fuel)%nat) as Hteams'.
    { intros (o' & Ho' & Hc). apply Hteams. exists o'. split; [by right|done]. }
    unfold orgListGroups, memberOfOpenOrg. rewrite bind_cons. simpl existsb.
    destruct (confirmed c client userName (Org.Name o)) eqn:Hconf; simpl negb.
    + assert (orgGroups c client userName (concat pages) o
              = formatTeamName (Org.Name o) <$> keptTeams c (concat pages) o)
        as -> by (unfold orgGroups; by rewrite Hconf).
      destruct Hteams as [Hpages Hfuel]; [exists o; split; [left|done]|].
      cbv iota.
      rewrite (returns_bind_Some _ _ _ (teamsForOrg_pages _ _ _ _ _ Hpages Hfuel)).
      cbv beta iota.
      set (teams := teamsOfOrg c (Org.Name o) (concat pages)).
      match goal with
      | |- returns (bind ?m _) = _ =>
          assert (returns m
                  = Some (keptTeams c (concat pages) o,
                          inOrgNoTeams || bool_decide (Org.Teams o = [])))
            as Hinner
      end.
      { unfold keptTeams. fold teams.
        destruct (Org.Teams o) as [|t ts] eqn:Hts.
        - simpl. by rewrite orb_true_r.
        - rewrite decide_False by done. rewrite (decide_False (P := _ = [])) by done.
          rewrite bool_decide_eq_false_2 by done. rewrite orb_false_r.
          by destruct (decide (length (Filter teams (t :: ts)) = 0%nat)). }
      rewrite (returns_bind_Some _ _ _ Hinner). cbv beta iota.
      rewrite fold_left_snoc. rewrite (IH _ _ Hconcl' Hteams').
      unfold orgListGroups, memberOfOpenOrg. cbv zeta.
      rewrite <- !app_assoc. by rewrite <- !orb_assoc.
    + assert (orgGroups c client userName (concat pages) o = []) as ->
        by (unfold orgGroups; by rewrite Hconf).
      cbv iota. rewrite (IH _ _ Hconcl' Hteams').
      unfold orgListGroups, memberOfOpenOrg. done.
Qed.
End OrgList.

Section OrgListAuthorization.
Context `{!Env}.
Implicit Types (c : githubConnector.t) (client : Client).

Lemma admits_groups c client (userName : string) (teams : list team.t)
    (o : Org.t) :
  confirmed c client userName (Org.Name o) && bool_decide (Org.Teams o = [])
  || bool_decide (0 < length (orgGroups c client userName teams o))%nat = true
  ↔ admits c client userName teams o.
Proof.
  unfold admits, orgGroups, keptTeams.
  destruct (confirmed c client userName (Org.Name o)); simpl.
  2: { split; [done | by intros [? _]]. }
  destruct (decide (Org.Teams o = [])) as [Ht|Ht].
  - rewrite bool_decide_eq_true_2 by done. simpl. tauto.
  - rewrite bool_decide_eq_false_2 by done. simpl.
    rewrite bool_decide_eq_true, length_fmap.
    destruct (Filter _ _) as [|g gs]; simpl.
    + split; [lia | intros [_ [?|?]]; done].
    + split; [intros _; split; [done | by right] | lia].
Qed.

(** The condition under which the loop over the orgs ends well. *)
Lemma authorized_iff c client (userName : string) (teams : list team.t)
    (orgs : list Org.t) :
  memberOfOpenOrg c client userName orgs
  || bool_decide (0 < length (orgListGroups c client userName teams orgs))%nat
    = true
  ↔ ∃ o, o ∈ orgs ∧ admits c client userName teams o.
Proof.
  induction orgs as [|o orgs IH].
  - simpl. split; [done | intros (o & Ho & _); by apply elem_of_nil in Ho].
  - unfold memberOfOpenOrg, orgListGroups in *. simpl existsb.
    rewrite bind_cons, length_app.
    transitivity
      (admits c client userName teams o ∨
       ∃ o', o' ∈ orgs ∧ admits c client userName teams o').
    + rewrite <- IH, <- admits_groups.
      rewrite !orb_true_iff, !bool_decide_eq_true. split.
      * intros [[?|?]|?]; [tauto | tauto |].
        destruct (decide (0 < length (orgGroups c client userName teams o))%nat);
          [tauto | right; right; lia].
      * intros [[?|?]|[?|?]]; [tauto | right; lia | tauto | right; lia].
    + split.
      * intros [?|(o' & Ho' & ?)]; [exists o | exists o']; split; try done;
          [left | by right].
      * intros (o' & Ho' & Ha). apply elem_of_cons in Ho' as [->|Ho'];
          [by left | right; eauto].
Qed.

Lemma not_authorized_nil c client (userName : string) (teams : list team.t)
    (orgs : list Org.t) :
  memberOfOpenOrg c client userName orgs
  || bool_decide (0 < length (orgListGroups c client userName teams orgs))%nat
    = false →
  orgListGroups c client userName teams orgs = [].
Proof.
  rewrite orb_false_iff, bool_decide_eq_false. intros [_ Hlen].
  destruct (orgListGroups _ _ _ _ _); [done | simpl in Hlen; lia].
Qed.

(** With the default projection, the claims of the user's teams in an
    org are the names of these teams. *)
Lemma teamsOfOrg_names c (orgName : string) (teams : list team.t) :
  projectsNames c →
  teamsOfOrg c orgName teams = teamNamesIn orgName teams.
Proof.
  intros [Hboth Hslug]. unfold teamsOfOrg, teamNamesIn.
  induction (filter _ teams) as [|t ts IH]; [done|].
  rewrite bind_cons, fmap_cons, IH. unfold teamGroupClaims.
  by rewrite !decide_False.
Qed.

(** With the default projection the code admits the user to an org
    exactly when the org authorizes the user in the words of the
    specification. *)
Lemma admits_authorizes c client (userName : string) (teams : list team.t)
    (o : Org.t) :
  projectsNames c →
  admits c client userName teams o ↔ authorizes c client userName teams o.
Proof.
  intros Hnames. unfold admits, authorizes.
  by rewrite (teamsOfOrg_names c _ _ Hnames).
Qed.

(** What [groupsForOrgs] returns when every membership check is
    conclusive and the team pages are served. *)
Lemma groupsForOrgs_spec c client (userName : string)
    (pages : list (list team.t)) (fuel : nat) :
  Forall (λ o, Conclusive c client userName (Org.Name o))
         c.(githubConnector.orgs) →
  ((∃ o, o ∈ c.(githubConnector.orgs) ∧
         confirmed c client userName (Org.Name o) = true) →
   Pages client (c.(githubConnector.apiURL) +:+ "/user/teams") pages ∧
   (length pages ≤ fuel)%nat) →
  returns (groupsForOrgs fuel c client userName)
    = Some (let groups :=
              orgListGroups c client userName (concat pages)
                c.(githubConnector.orgs) in
            if memberOfOpenOrg c client userName c.(githubConnector.orgs)
               || bool_decide (0 < length groups)%nat
            then (groups, None)
            else ([], Some (notAuthorized userName))).
Proof.
  intros Hconcl Hteams. unfold groupsForOrgs.
  rewrite (groupsForOrgs_range_spec c client userName pages fuel);
    [|by apply Forall_forall|done].
  simpl.
  destruct (memberOfOpenOrg _ _ _ _ || _) eqn:Hauth; [done|].
  by rewrite (not_authorized_nil _ _ _ _ _ Hauth).
Qed.
End OrgListAuthorization.

(** C6, as amended.  In org-list mode, when every membership check is
    answered with [204], [302] or [404] and the team pages are served,
    resolution returns successfully if and only if at least one
    configured org of which the user is a confirmed member has no team
    restriction, or has a team restriction that holds one of the strings
    which the projection of the team name gives for the user's teams in
    that org: the name by default, the slug in the mode [slug], the name
    and the slug in the mode [both].  With the default projection this
    is: the allow-list and the names of the user's teams in that org have
    a name in common.  Otherwise resolution returns the not-authorized
    error with no group; so it does for a user who is a member of no
    configured org. *)
Theorem groupsForOrgs_authorization `{!Env} (c : githubConnector.t)
    (client : Client) (userName : string) (pages : list (list team.t))
    (fuel : nat) :
  Forall (λ o, Conclusive c client userName (Org.Name o))
         c.(githubConnector.orgs) →
  ((∃ o, o ∈ c.(githubConnector.orgs) ∧
         confirmed c client userName (Org.Name o) = true) →
   Pages client (c.(githubConnector.apiURL) +:+ "/user/teams") pages ∧
   (length pages ≤ fuel)%nat) →
  ((∃ groups,
      returns (groupsForOrgs fuel c client userName) = Some (groups, None))
   ↔ ∃ o, o ∈ c.(githubConnector.orgs) ∧
          admits c client userName (concat pages) o) ∧
  (projectsNames c →
   ((∃ groups,
       returns (groupsForOrgs fuel c client userName) = Some (groups, None))
    ↔ ∃ o, o ∈ c.(githubConnector.orgs) ∧
           authorizes c client userName (concat pages) o)) ∧
  ((¬ ∃ o, o ∈ c.(githubConnector.orgs) ∧
           admits c client userName (concat pages) o) →
   returns (groupsForOrgs fuel c client userName)
     = Some ([], Some (notAuthorized userName))) ∧
  ((∀ o, o ∈ c.(githubConnector.orgs) →
         confirmed c client userName (Org.Name o) = false) →
   returns (groupsForOrgs fuel c client userName)
     = Some ([], Some (notAuthorized userName))).
Proof.
  intros Hconcl Hteams.
  rewrite (groupsForOrgs_spec c client userName pages fuel Hconcl Hteams).
  pose proof (authorized_iff c client userName (concat pages)
                c.(githubConnector.orgs)) as Hiff.
  assert (projectsNames c →
          (∃ o, o ∈ c.(githubConnector.orgs) ∧
                admits c client userName (concat pages) o)
          ↔ ∃ o, o ∈ c.(githubConnector.orgs) ∧
                 authorizes c client userName (concat pages) o) as Hwords.
  { intros Hnames.
    split; intros (o & Ho & Ha); exists o; (split; [done|]);
      by apply (admits_authorizes c client userName _ o Hnames). }
  cbv zeta.
  destruct (memberOfOpenOrg _ _ _ _ || _) eqn:Hauth.
  - split; [|split; [|split]].
    + split; [intros _; by apply Hiff | eauto].
    + intros Hnames.
      split; [intros _; apply (Hwords Hnames); by apply Hiff | eauto].
    + intros Hno. destruct Hno. by apply Hiff.
    + intros Hnone. apply proj1 in Hiff.
      destruct (Hiff eq_refl) as (o & Ho & Hconf & _).
      rewrite (Hnone o Ho) in Hconf. done.
  - split; [|split; [|split]]; try done.
    + split; [by intros (groups & [=]) | intros Ho; apply Hiff in Ho; done].
    + intros Hnames. split; [by intros (groups & [=])|].
      intros Ho. apply (Hwords Hnames) in Ho. apply Hiff in Ho. done.
Qed.

(** C1, as amended.  In org-list mode, when every membership check is
    conclusive and the team pages are served, an org without allow-list of
    which the user is a confirmed member makes the resolution succeed, and
    it adds one group string [org:team] for every team claim of the user
    in that org, none when the user has no team there.  In particular,
    with the default projection of the team name (the name), for the
    configured orgs [A] (allow-list [x]), [B] and [C] (no allow-list) and
    a user who is a confirmed member of [A] and of [B] and not of [C], and
    one of whose teams in [A] is named [x]: the resolution succeeds with
    the group [A:x] followed by one group [B:team] for every team of the
    user in [B]; so the groups are exactly [A:x] when the user has no team
    in [B], and [A:x], [B:y] when the user's one team in [B] is [y]. *)
Theorem groupsForOrgs_open_org `{!Env} (c : githubConnector.t)
    (client : Client) (userName : string) (pages : list (list team.t))
    (fuel : nat) :
  Forall (λ o, Conclusive c client userName (Org.Name o))
         c.(githubConnector.orgs) →
  Pages client (c.(githubConnector.apiURL) +:+ "/user/teams") pages →
  (length pages ≤ fuel)%nat →
  (∀ o : Org.t,
     o ∈ c.(githubConnector.orgs) →
     confirmed c client userName (Org.Name o) = true →
     Org.Teams o = [] →
     returns (groupsForOrgs fuel c client userName)
       = Some (c.(githubConnector.orgs)
                 ≫= orgGroups c client userName (concat pages), None) ∧
     orgGroups c client userName (concat pages) o
       = formatTeamName (Org.Name o)
           <$> teamsOfOrg c (Org.Name o) (concat pages)) ∧
  (∀ A B C x : string,
     c.(githubConnector.orgs) = [Org.mk A [x]; Org.mk B []; Org.mk C []] →
     projectsNames c →
     confirmed c client userName A = true →
     confirmed c client userName B = true →
     confirmed c client userName C = false →
     Filter (teamNamesIn A (concat pages)) [x] = [x] →
     returns (groupsForOrgs fuel c client userName)
       = Some (formatTeamName A x
                 :: (formatTeamName B <$> teamNamesIn B (concat pages)),
               None) ∧
     (teamNamesIn B (concat pages) = [] →
      returns (groupsForOrgs fuel c client userName)
        = Some ([formatTeamName A x], None)) ∧
     (∀ y : string,
        teamNamesIn B (concat pages) = [y] →
        returns (groupsForOrgs fuel c client userName)
          = Some ([formatTeamName A x; formatTeamName B y], None))).
Proof.
  intros Hconcl Hpages Hfuel.
  pose proof (groupsForOrgs_spec c client userName pages fuel Hconcl
                (λ _, conj Hpages Hfuel)) as Hspec.
  split.
  - intros o Ho Hconf Hopen. rewrite Hspec.
    assert (memberOfOpenOrg c client userName c.(githubConnector.orgs) = true)
      as ->.
    { unfold memberOfOpenOrg. apply existsb_exists. exists o.
      split; [by apply list_elem_of_In|].
      by rewrite Hconf, bool_decide_eq_true_2. }
    split; [done|]. unfold orgGroups, keptTeams.
    by rewrite Hconf, decide_True.
  - intros A B C x Horgs Hnames HA HB HC Hx.
    assert (returns (groupsForOrgs fuel c client userName)
            = Some (formatTeamName A x
                      :: (formatTeamName B <$> teamNamesIn B (concat pages)),
                    None)) as Hrun.
    { rewrite Hspec, Horgs.
      unfold memberOfOpenOrg, orgListGroups, orgGroups, keptTeams.
      simpl existsb. rewrite !bind_cons.
      change (mbind ?f (@nil Org.t)) with (@nil string). simpl Org.Name.
      simpl Org.Teams. rewrite HA, HB, HC.
      rewrite !(teamsOfOrg_names c _ _ Hnames).
      rewrite decide_False by done. rewrite decide_True by done.
      rewrite Hx. by rewrite !app_nil_r. }
    split; [exact Hrun | split].
    + intros HnoB. by rewrite Hrun, HnoB.
    + intros y Hy. by rewrite Hrun, Hy.
Qed.

Section OrgListExamples.
#[local] Existing Instance example_Env.

Local Ltac conclusive :=
  repeat (constructor;
          [split; [reflexivity
                  | eexists; split; [reflexivity | vm_compute; tauto]]|]);
  try constructor.

(** C1, as stated, fails: the org [B] has no allow-list and the user is
    a confirmed member of it, and the resolution adds the group string
    [B:y] for it. *)
Lemma groupsForOrgs_open_org_adds_teams :
  Org.mk "B" [] ∈ example_orgs_connector.(githubConnector.orgs) ∧
  confirmed example_orgs_connector (example_orgs_client "x|A|x,y|B|y")
    "mona" "B" = true ∧
  returns (groupsForOrgs 1 example_orgs_connector
             (example_orgs_client "x|A|x,y|B|y") "mona")
    = Some (["A:x"; "B:y"], None).
Proof. split; [by right; left | split; reflexivity]. Qed.

Lemma groupsForOrgs_open_org_witness :
  returns (groupsForOrgs 1 example_orgs_connector
             (example_orgs_client "x|A|x") "mona")
    = Some (["A:x"], None).
Proof.
  refine (proj1 (proj2 (proj2 (groupsForOrgs_open_org example_orgs_connector
                                 (example_orgs_client "x|A|x") "mona"
                                 [[team.mk "x" (org.mk "A") "x"]] 1%nat
                                 _ _ _)
                          "A" "B" "C" "x" _ _ _ _ _ _)) _).
  - conclusive.
  - apply Pages_last. reflexivity.
  - simpl. lia.
  - reflexivity.
  - split; done.
  - reflexivity.
  - reflexivity.
  - reflexivity.
  - by vm_compute.
  - reflexivity.
Defined.

(** C6, as stated, fails: with the projection mode [slug], the user is
    a confirmed member of the org [A], whose team restriction names the
    team [Team X], and [Team X] is a team of the user in [A]; yet the
    resolution returns the not-authorized error, the slug [team-x] not
    being on the allow-list. *)
Lemma groupsForOrgs_slug_refused :
  Org.mk "A" ["Team X"] ∈ example_allow_slug_connector.(githubConnector.orgs) ∧
  Conclusive example_allow_slug_connector example_slug_client "mona" "A" ∧
  Pages example_slug_client
    (example_allow_slug_connector.(githubConnector.apiURL) +:+ "/user/teams")
    [[example_team_x]] ∧
  authorizes example_allow_slug_connector example_slug_client "mona"
    [example_team_x] (Org.mk "A" ["Team X"]) ∧
  returns (groupsForOrgs 1 example_allow_slug_connector example_slug_client
             "mona")
    = Some ([], Some (notAuthorized "mona")).
Proof.
  split; [left|].
  split; [split; [reflexivity
                 | eexists; split; [reflexivity | vm_compute; tauto]]|].
  split; [apply Pages_last; reflexivity|].
  split; [|reflexivity].
  split; [reflexivity | right; by vm_compute].
Qed.

Lemma groupsForOrgs_authorization_witness :
  ∃ groups,
    returns (groupsForOrgs 1 example_orgs_connector
               (example_orgs_client "x|A|x") "mona") = Some (groups, None).
Proof.
  refine (proj2 (proj1 (groupsForOrgs_authorization example_orgs_connector
                          (example_orgs_client "x|A|x") "mona"
                          [[team.mk "x" (org.mk "A") "x"]] 1%nat _ _)) _).
  - conclusive.
  - intros _. split; [apply Pages_last; reflexivity | simpl; lia].
  - exists (Org.mk "A" ["x"]). split; [left|].
    split; [reflexivity | right; by vm_compute].
Defined.
End OrgListExamples.

(** ** The choice of the e-mail *)

Section UserEmail.
Context `{!Env}.
Implicit Types (c : githubConnector.t) (client : Client).

Lemma preferredOf_app c (es1 es2 : list userEmail.t) :
  preferredOf c (es1 ++ es2) = preferredOf c es1 ++ preferredOf c es2.
Proof.
  unfold preferredOf. destruct (decide _); [|done].
  by rewrite fmap_app, filter_app.
Qed.

Lemma fallbackOf_app c (es1 es2 : list userEmail.t) (p : userEmail.t) :
  default p (fallbackOf c (es1 ++ es2))
    = default (default p (fallbackOf c es1)) (fallbackOf c es2).
Proof.
  unfold fallbackOf. rewrite fmap_app, filter_app, last_app.
  by destruct (last (filter _ (asRead c <$> es2))).
Qed.

Lemma WellFormed_app c (es1 es2 : list userEmail.t) :
  WellFormed c (es1 ++ es2) ↔ WellFormed c es1 ∧ WellFormed c es2.
Proof.
  unfold WellFormed. setoid_rewrite Forall_app. tauto.
Qed.

(** The loop over the e-mails of one page. *)
Lemma userEmail_range_spec c (emails : list userEmail.t) :
  WellFormed c emails →
  ∀ (primaryEmail : userEmail.t) (preferredEmails : list userEmail.t),
    userEmail_range c emails primaryEmail preferredEmails
      = inl (default primaryEmail (fallbackOf c emails),
             preferredEmails ++ preferredOf c emails).
Proof.
  induction emails as [|e emails IH]; intros Hwf p prefs.
  - unfold preferredOf. simpl. destruct (decide _); by rewrite app_nil_r.
  - apply (WellFormed_app c [e] emails) in Hwf as [He Hwf].
    specialize (IH Hwf). simpl userEmail_range. fold (asRead c e).
    change (e :: emails) with ([e] ++ emails).
    rewrite (fallbackOf_app c [e] emails), (preferredOf_app c [e] emails).
    assert (default p (fallbackOf c [e])
            = if userEmail.Verified (asRead c e) && userEmail.Primary (asRead c e)
              then asRead c e else p) as ->.
    { unfold fallbackOf. simpl. rewrite filter_cons, filter_nil.
      unfold isFallback.
      by destruct (userEmail.Verified (asRead c e)
                   && userEmail.Primary (asRead c e)). }
    unfold WellFormed in He. unfold preferredOf at 1.
    destruct (decide (c.(githubConnector.preferredEmailDomain) ≠ EmptyString))
      as [Hpref|Hpref].
    + specialize (He Hpref). apply Forall_cons in He as [He _].
      assert (userEmail.Email (asRead c e) = userEmail.Email e) as Hemail
        by (unfold asRead; by destruct (decide _)).
      unfold hasAt in He. rewrite Hemail.
      destruct (Cut (userEmail.Email e) "@") as [[before after] ok] eqn:Hcut.
      simpl in He. subst ok. simpl negb. cbv iota.
      assert (isPreferred c (asRead c e)
              = userEmail.Verified (asRead c e)
                && isPreferredEmailDomain c after) as Hpr.
      { unfold isPreferred, domainOf. by rewrite Hemail, Hcut. }
      simpl fmap. rewrite filter_cons, filter_nil, IH.
      destruct (userEmail.Verified (asRead c e)
                && isPreferredEmailDomain c after).
      * rewrite decide_True by done. by rewrite <- app_assoc.
      * rewrite decide_False; [done | by rewrite Hpr].
    + by rewrite IH.
Qed.

Lemma userEmail_loop_pages c client (url : string)
    (pages : list (list userEmail.t)) :
  Pages client url pages →
  WellFormed c (concat pages) →
  ∀ (fuel : nat) (primaryEmail : userEmail.t)
    (preferredEmails : list userEmail.t),
    (length pages ≤ fuel)%nat →
    returns (userEmail_loop fuel c client url primaryEmail preferredEmails)
      = Some (finalEmail
                (default primaryEmail (fallbackOf c (concat pages)))
                (preferredEmails ++ preferredOf c (concat pages))).
Proof.
  induction 1 as [url page Hget|url next page rest Hget Hnext _ IH];
    intros Hwf [|fuel] p prefs Hfuel; simpl in Hfuel; try lia;
    simpl concat in *; apply WellFormed_app in Hwf as [Hwf1 Hwf2];
    simpl userEmail_loop; rewrite (returns_bind_Some _ _ _ Hget);
    cbv beta iota; rewrite (userEmail_range_spec c page Hwf1).
  - rewrite decide_True by done. rewrite app_nil_r. unfold finalEmail.
    destruct (prefs ++ preferredOf c page) as [|e l]; simpl; [|done].
    by destruct (decide (userEmail.Email _ ≠ EmptyString)).
  - rewrite decide_False by done. rewrite (IH Hwf2) by lia.
    by rewrite fallbackOf_app, preferredOf_app, app_assoc.
Qed.

Lemma finalEmail_chosen c (emails : list userEmail.t) :
  finalEmail (default userEmail.zero (fallbackOf c emails))
             (preferredOf c emails)
    = chosenEmail c emails.
Proof.
  unfold finalEmail, chosenEmail.
  destruct (preferredOf c emails); [|done].
  by destruct (fallbackOf c emails).
Qed.

(** C3, as amended.  For every crawl of the private e-mails whose pages
    are all served and, when a preferred domain is configured, whose
    addresses all hold an [@], the e-mail returned is, in this order:
    the first e-mail across the pages that counts as verified (on an
    enterprise host every e-mail does) and whose domain the preferred
    domain filter accepts; else the last e-mail encountered that counts
    as verified and is marked primary, when its address is not empty;
    else the operation fails with the error that names the lack of a
    usable e-mail. *)
Theorem userEmail_choice c client (pages : list (list userEmail.t))
    (fuel : nat) :
  Pages client (c.(githubConnector.apiURL) +:+ "/user/emails") pages →
  WellFormed c (concat pages) →
  (length pages ≤ fuel)%nat →
  returns (userEmail fuel c client) = Some (chosenEmail c (concat pages)).
Proof.
  intros Hpages Hwf Hfuel. unfold userEmail.
  rewrite (userEmail_loop_pages c client _ pages Hpages Hwf) by done.
  by rewrite finalEmail_chosen.
Qed.
End UserEmail.

Section UserEmailExamples.
#[local] Existing Instance example_Env.

(** C3, as stated, fails: of two e-mails that are both verified and
    primary, the second one is returned, not the first one. *)
Lemma userEmail_returns_last_primary :
  Pages example_emails_client "https://api.github.com/user/emails"
    [[userEmail.mk "a@x.org" true true "private";
      userEmail.mk "b@y.org" true true "private"]] ∧
  returns (userEmail 1 example_connector example_emails_client)
    = Some ("b@y.org", None).
Proof. split; [apply Pages_last|]; reflexivity. Qed.

Lemma userEmail_choice_witness :
  returns (userEmail 1 example_connector example_emails_client)
    = Some (chosenEmail example_connector
              [userEmail.mk "a@x.org" true true "private";
               userEmail.mk "b@y.org" true true "private"]).
Proof.
  refine (userEmail_choice example_connector example_emails_client
            [[userEmail.mk "a@x.org" true true "private";
              userEmail.mk "b@y.org" true true "private"]] 1 _ _ _).
  - apply Pages_last. reflexivity.
  - intros Hpref. by vm_compute in Hpref.
  - simpl. lia.
Defined.
End UserEmailExamples.

(** ** The profile *)

Lemma bind_ext {A B : Type} (m : M A) (k k' : A → M B) :
  (∀ a, k a = k' a) → bind m k = bind m k'.
Proof. intros Hk. destruct m as [[a l]|]; [|done]. simpl. by rewrite Hk. Qed.

Section User.
Context `{!Env}.
Implicit Types (c : githubConnector.t) (client : Client).

(** A fetch without error has sent its request, and nothing else. *)
Lemma get_ok_events {A : Type} `{!JSON A} client (url : string) (v v' : A)
    (next : string) :
  returns (get client url v) = Some (v', next, None) →
  get client url v = Some ((v', next, None), [Request url]).
Proof.
  unfold get. destruct (NewRequest url); [done|]. simpl.
  destruct (client url) as [resp|err]; [|done].
  destruct (decide (StatusCode resp ≠ StatusOK)).
  - unfold ReadAll. by destruct (Body resp) as [body [err|]].
  - destruct (Decode (Body resp)) as [v'' [err|]]; [done|].
    simpl. by intros [= -> ->].
Qed.

(** The flag of the non-disclosing e-mail plays no part in the choice
    among the private e-mails. *)
Lemma userEmail_range_noreply c (b : bool) (emails : list userEmail.t) :
  ∀ (primaryEmail : userEmail.t) (preferredEmails : list userEmail.t),
    userEmail_range (githubConnector.with_noreplyPrivateEmail c b) emails
      primaryEmail preferredEmails
    = userEmail_range c emails primaryEmail preferredEmails.
Proof.
  induction emails as [|e emails IH]; intros p prefs; [done|].
  simpl. destruct (decide (githubConnector.preferredEmailDomain c ≠ _)).
  - destruct (Cut _ _) as [[before after] ok]. destruct ok; simpl; [|done].
    by rewrite IH.
  - by rewrite IH.
Qed.

Lemma userEmail_loop_noreply c client (b : bool) (fuel : nat) :
  ∀ (url : string) (primaryEmail : userEmail.t)
    (preferredEmails : list userEmail.t),
    userEmail_loop fuel (githubConnector.with_noreplyPrivateEmail c b) client
      url primaryEmail preferredEmails
    = userEmail_loop fuel c client url primaryEmail preferredEmails.
Proof.
  induction fuel as [|fuel IH]; intros url p prefs; [done|].
  simpl. apply bind_ext. intros [[emails next] err].
  destruct err; [done|]. rewrite userEmail_range_noreply.
  destruct (userEmail_range c emails p prefs) as [[p' prefs']|]; [|done].
  destruct (decide (next = EmptyString)); [done|]. apply IH.
Qed.

(** C2, as amended.  With the non-disclosing e-mail enabled and the
    profile fetched: when no host is configured or the configured host is
    [github.com], the profile operation returns exactly
    [{numericID}+{login}@users.noreply.github.com], having sent no
    request but the one for the profile; with any other configured host
    the shortcut is never applied: the operation does exactly what it
    does with the non-disclosing e-mail disabled, requests and result
    alike. *)
Theorem user_noreply c client (fuel : nat) (u : user.t) (next : string) :
  c.(githubConnector.noreplyPrivateEmail) = true →
  returns (get client (c.(githubConnector.apiURL) +:+ "/user") user.zero)
    = Some (u, next, None) →
  ((c.(githubConnector.hostName) = EmptyString
    ∨ c.(githubConnector.hostName) = "github.com") →
   user fuel c client
     = Some ((user.with_Email u
                (Itoa (user.ID u) +:+ "+" +:+ user.Login u
                   +:+ "@users.noreply.github.com"),
              None),
             [Request (c.(githubConnector.apiURL) +:+ "/user")])) ∧
  (¬ (c.(githubConnector.hostName) = EmptyString
      ∨ c.(githubConnector.hostName) = "github.com") →
   user fuel c client
     = user fuel (githubConnector.with_noreplyPrivateEmail c false) client).
Proof.
  intros Hnoreply Hget. apply get_ok_events in Hget.
  unfold user. simpl githubConnector.apiURL.
  simpl githubConnector.hostName. simpl githubConnector.preferredEmailDomain.
  simpl githubConnector.noreplyPrivateEmail.
  rewrite Hget, Hnoreply. simpl. split.
  - intros [Hhost|Hhost]; rewrite Hhost; done.
  - intros Hhost.
    rewrite !bool_decide_eq_false_2 by tauto. simpl.
    unfold userEmail. by rewrite userEmail_loop_noreply.
Qed.
End User.

Section UserExamples.
#[local] Existing Instance example_Env.

(** C2, as stated, fails: with the host name [github.com] configured,
    the shortcut is applied. *)
Lemma user_noreply_configured_host :
  example_host_connector.(githubConnector.hostName) ≠ EmptyString ∧
  example_host_connector.(githubConnector.apiURL)
    = "https://github.com/api/v3" ∧
  user 0 example_host_connector example_host_client
    = Some ((user.with_Email example_mona "42+mona@users.noreply.github.com",
             None),
            [Request "https://github.com/api/v3/user"]).
Proof. repeat split; done. Qed.

Lemma user_noreply_witness :
  user 0 example_host_connector example_host_client
    = Some ((user.with_Email example_mona
               (Itoa 42 +:+ "+" +:+ "mona" +:+ "@users.noreply.github.com"),
             None),
            [Request "https://github.com/api/v3/user"]).
Proof.
  refine (proj1 (user_noreply example_host_connector example_host_client 0
                   example_mona EmptyString _ _) _).
  - reflexivity.
  - reflexivity.
  - by right.
Defined.
End UserExamples.

(** ** The group-resolution modes *)

Section Groups.
Context `{!Env}.
Implicit Types (c : githubConnector.t) (client : Client).

Lemma userOrgs_loop_pages client (url : string) (pages : list (list org.t)) :
  Pages client url pages →
  ∀ (fuel : nat) (groups : list string),
    (length pages ≤ fuel)%nat →
    returns (userOrgs_loop fuel client url groups)
      = Some (groups ++ (org.Login <$> concat pages), None).
Proof.
  induction 1 as [url page Hget|url next page rest Hget Hnext _ IH];
    intros [|fuel] groups Hfuel; simpl in Hfuel; try lia;
    simpl userOrgs_loop; rewrite (returns_bind_Some _ _ _ Hget);
    cbv beta iota; rewrite fold_left_snoc; simpl concat.
  - rewrite decide_True by done. by rewrite app_nil_r.
  - rewrite decide_False by done. rewrite IH by lia.
    by rewrite fmap_app, app_assoc.
Qed.

(** Adding the teams of a page to the map adds their claims to the
    entry of their org. *)
Lemma userOrgTeams_fold c (teams : list team.t) :
  ∀ (groups : gmap string (list string)) (o : string),
    default []
      (fold_left
         (λ (groups : gmap string (list string)) t,
            <[ org.Login (team.Org t) :=
                 default [] (groups !! org.Login (team.Org t))
                   ++ teamGroupClaims c t ]> groups)
         teams groups !! o)
    = default [] (groups !! o) ++ teamsOfOrg c o teams.
Proof.
  induction teams as [|t teams IH]; intros groups o; simpl.
  - unfold teamsOfOrg. simpl. by rewrite app_nil_r.
  - rewrite IH. unfold teamsOfOrg. rewrite filter_cons.
    destruct (decide (org.Login (team.Org t) = o)) as [<-|Hne].
    + rewrite lookup_insert_eq. simpl. by rewrite <- app_assoc.
    + by rewrite lookup_insert_ne.
Qed.

Lemma userOrgTeams_loop_pages c client (url : string)
    (pages : list (list team.t)) :
  Pages client url pages →
  ∀ (fuel : nat) (groups : gmap string (list string)),
    (length pages ≤ fuel)%nat →
    ∃ groups' : gmap string (list string),
      returns (userOrgTeams_loop fuel c client url groups)
        = Some (groups', None) ∧
      ∀ o, default [] (groups' !! o)
           = default [] (groups !! o) ++ teamsOfOrg c o (concat pages).
Proof.
  induction 1 as [url page Hget|url next page rest Hget Hnext _ IH];
    intros [|fuel] groups Hfuel; simpl in Hfuel; try lia;
    simpl userOrgTeams_loop; rewrite (returns_bind_Some _ _ _ Hget);
    cbv beta iota; simpl concat.
  - rewrite decide_True by done. eexists. split; [done|].
    intros o. by rewrite userOrgTeams_fold, app_nil_r.
  - rewrite decide_False by done.
    destruct (IH fuel
                (fold_left
                   (λ (groups : gmap string (list string)) t,
                      <[ org.Login (team.Org t) :=
                           default [] (groups !! org.Login (team.Org t))
                             ++ teamGroupClaims c t ]> groups)
                   page groups) ltac:(lia)) as (groups' & -> & Hgroups').
    eexists. split; [done|]. intros o.
    by rewrite Hgroups', userOrgTeams_fold, teamsOfOrg_app, app_assoc.
Qed.

Lemma userGroups_fold (orgTeams : gmap string (list string))
    (orgs : list string) :
  ∀ groups : list string,
    fold_left
      (λ groups o,
         let groups := groups ++ [o] in
         match orgTeams !! o with
         | Some teams =>
             fold_left (λ groups t, groups ++ [formatTeamName o t])
                       teams groups
         | None => groups
         end)
      orgs groups
    = groups
        ++ (orgs ≫= λ o,
              o :: (formatTeamName o <$> default [] (orgTeams !! o))).
Proof.
  induction orgs as [|o orgs IH]; intros groups; simpl.
  - by rewrite app_nil_r.
  - rewrite IH. destruct (orgTeams !! o) as [teams|]; simpl.
    + rewrite fold_left_snoc. by rewrite <- !app_assoc.
    + by rewrite <- !app_assoc.
Qed.

(** With the org pages and the team pages served, [userGroups] returns
    every org followed by the claims of its teams. *)
Lemma userGroups_pages c client (orgPages : list (list org.t))
    (teamPages : list (list team.t)) (fuel : nat) :
  Pages client (c.(githubConnector.apiURL) +:+ "/user/orgs") orgPages →
  Pages client (c.(githubConnector.apiURL) +:+ "/user/teams") teamPages →
  (length orgPages ≤ fuel)%nat →
  (length teamPages ≤ fuel)%nat →
  returns (userGroups fuel c client)
    = Some (allGroups c (org.Login <$> concat orgPages) (concat teamPages),
            None).
Proof.
  intros Horgs Hteams Hfo Hft. unfold userGroups, userOrgs, userOrgTeams.
  rewrite (returns_bind_Some _ _ _
             (userOrgs_loop_pages _ _ _ Horgs fuel [] Hfo)).
  cbv beta iota.
  destruct (userOrgTeams_loop_pages c _ _ _ Hteams fuel ∅ Hft)
    as (orgTeams & HorgTeams & Hlookup).
  rewrite (returns_bind_Some _ _ _ HorgTeams). cbv beta iota.
  rewrite userGroups_fold. simpl. unfold allGroups. do 2 f_equal.
  apply list_bind_ext; [|done]. intros o.
  by rewrite Hlookup, lookup_empty.
Qed.
End Groups.

(** C7, as amended.  A team yields exactly two strings, its name and its
    slug, in the projection mode [both], and exactly one, its slug or its
    name, in the modes [slug] and [name].  The load-all mode contributes
    them as [org:name] and [org:slug] for every team of every org of the
    user; so does the org-list mode for a configured org without
    allow-list, and with an allow-list it keeps, of these strings, the ones
    that are on the allow-list; the legacy single-org mode contributes them
    without the org prefix. *)
Theorem teamGroupClaims_modes `{!Env} :
  (∀ (c : githubConnector.t) (t : team.t),
     (c.(githubConnector.teamNameField) = "both" →
      teamGroupClaims c t = [team.Name t; team.Slug t]) ∧
     (c.(githubConnector.teamNameField) = "slug" →
      teamGroupClaims c t = [team.Slug t]) ∧
     (c.(githubConnector.teamNameField) = "name" →
      teamGroupClaims c t = [team.Name t])) ∧
  (∀ (c : githubConnector.t) (client : Client) (groupScope : bool)
     (userLogin : string) (teamPages : list (list team.t)) (fuel : nat),
     c.(githubConnector.orgs) = [] →
     c.(githubConnector.org) ≠ EmptyString →
     Pages client (c.(githubConnector.apiURL) +:+ "/user/teams") teamPages →
     (length teamPages ≤ fuel)%nat →
     returns (getGroups fuel c client groupScope userLogin)
       = Some (filter (λ t, org.Login (team.Org t) = c.(githubConnector.org))
                      (concat teamPages)
                 ≫= teamGroupClaims c,
               None)) ∧
  (∀ (c : githubConnector.t) (client : Client) (userLogin : string)
     (orgPages : list (list org.t)) (teamPages : list (list team.t))
     (fuel : nat),
     c.(githubConnector.orgs) = [] →
     c.(githubConnector.org) = EmptyString →
     c.(githubConnector.loadAllGroups) = true →
     Pages client (c.(githubConnector.apiURL) +:+ "/user/orgs") orgPages →
     Pages client (c.(githubConnector.apiURL) +:+ "/user/teams") teamPages →
     (length orgPages ≤ fuel)%nat →
     (length teamPages ≤ fuel)%nat →
     returns (getGroups fuel c client true userLogin)
       = Some ((org.Login <$> concat orgPages)
                 ≫= (λ o, o :: (formatTeamName o
                                  <$> teamsOfOrg c o (concat teamPages))),
               None)) ∧
  (∀ (c : githubConnector.t) (client : Client) (groupScope : bool)
     (userLogin : string) (teamPages : list (list team.t)) (fuel : nat),
     c.(githubConnector.orgs) ≠ [] →
     Forall (λ o, Conclusive c client userLogin (Org.Name o))
            c.(githubConnector.orgs) →
     Pages client (c.(githubConnector.apiURL) +:+ "/user/teams") teamPages →
     (length teamPages ≤ fuel)%nat →
     ∃ err,
       returns (getGroups fuel c client groupScope userLogin)
         = Some (c.(githubConnector.orgs)
                   ≫= (λ o,
                         if confirmed c client userLogin (Org.Name o)
                         then formatTeamName (Org.Name o)
                                <$> (if decide (Org.Teams o = [])
                                     then teamsOfOrg c (Org.Name o)
                                            (concat teamPages)
                                     else Filter
                                            (teamsOfOrg c (Org.Name o)
                                               (concat teamPages))
                                            (Org.Teams o))
                         else []),
                 err)).
Proof.
  split; [|split; [|split]].
  - intros c t. unfold teamGroupClaims. repeat split; intros ->; done.
  - intros c client groupScope userLogin teamPages fuel Horgs Horg Hpages Hfuel.
    unfold getGroups. rewrite Horgs. simpl.
    rewrite decide_True by done.
    by rewrite (teamsForOrg_pages c client _ teamPages fuel Hpages Hfuel).
  - intros c client userLogin orgPages teamPages fuel Horgs Horg Hall
      Hopages Htpages Hfo Hft.
    unfold getGroups. rewrite Horgs, Horg, Hall. simpl.
    by rewrite (userGroups_pages c client orgPages teamPages fuel).
  - intros c client groupScope userLogin teamPages fuel Horgs Hconcl Hpages
      Hfuel.
    unfold getGroups. rewrite decide_True.
    2: { destruct (githubConnector.orgs c); [done | simpl; lia]. }
    rewrite (groupsForOrgs_spec c client userLogin teamPages fuel Hconcl)
      by (intros _; done).
    cbv zeta.
    change (c.(githubConnector.orgs) ≫= _)
      with (orgListGroups c client userLogin (concat teamPages)
              c.(githubConnector.orgs)).
    destruct (memberOfOpenOrg _ _ _ _ || _) eqn:Hauth; [by eexists|].
    rewrite (not_authorized_nil _ _ _ _ _ Hauth). by eexists.
Qed.

Section GroupsExamples.
#[local] Existing Instance example_Env.

(** C7, as stated, fails.  In the legacy single-org mode, the two
    strings of a team in the mode [both] come without the org prefix;
    in the org-list mode with the allow-list [Team X], the team
    [Team X] contributes one string in the mode [both], its slug not
    being on the allow-list. *)
Lemma getGroups_both_unprefixed_or_single :
  returns (getGroups 1 example_legacy_connector example_slug_client false
             "mona")
    = Some (["Team X"; "team-x"], None) ∧
  returns (getGroups 1 example_allow_connector example_slug_client false
             "mona")
    = Some (["A:Team X"], None).
Proof. split; reflexivity. Qed.

Lemma teamGroupClaims_modes_witness :
  returns (getGroups 1 example_legacy_connector example_slug_client false
             "mona")
    = Some (filter (λ t, org.Login (team.Org t) = "A")
                   [team.mk "Team X" (org.mk "A") "team-x"]
              ≫= teamGroupClaims example_legacy_connector,
            None).
Proof.
  refine (proj1 (proj2 teamGroupClaims_modes) example_legacy_connector
            example_slug_client false "mona"
            [[team.mk "Team X" (org.mk "A") "team-x"]] 1%nat _ _ _ _).
  - reflexivity.
  - done.
  - apply Pages_last. reflexivity.
  - simpl. lia.
Defined.
End GroupsExamples.

(** ** The flow adapter *)

Lemma returns_bind_inv {A B : Type} (m : M A) (k : A → M B) (b : B) :
  returns (bind m k) = Some b →
  ∃ a, returns m = Some a ∧ returns (k a) = Some b.
Proof.
  rewrite returns_bind. destruct (returns m) as [a|]; [|done]. eauto.
Qed.

Section Flow.
Context `{!Env}.
Implicit Types (c : githubConnector.t) (client : Client).

(** C9.  [Refresh] fails whenever the prior identity carries no opaque
    state.  When it succeeds, the identity it returns has the opaque
    state, the user id and the e-mail-verified flag of the prior
    identity, and its groups too unless group resolution is required;
    the username, the preferred username and the e-mail are those of
    the profile fetched with the stored access token, and the groups
    those resolved when group resolution is required. *)
Theorem Refresh_frame (fuel : nat) (up : Upstream) c (ctx : Context)
    (s : Scopes.t) (identity : Identity.t) :
  (Identity.ConnectorData identity = EmptyString →
   Refresh fuel up c ctx s identity
     = Some ((identity, Some (errors_New "no upstream access token found")),
             [])) ∧
  (∀ identity' : Identity.t,
     returns (Refresh fuel up c ctx s identity) = Some (identity', None) →
     Identity.ConnectorData identity' = Identity.ConnectorData identity ∧
     Identity.UserID identity' = Identity.UserID identity ∧
     Identity.EmailVerified identity' = Identity.EmailVerified identity ∧
     (groupsRequired c (Scopes.Groups s) = false →
      Identity.Groups identity' = Identity.Groups identity) ∧
     ∃ (data : connectorData.t) (u : user.t),
       let client :=
         Serve up ctx (oauth2Config c s)
           (oauth2.mkToken (connectorData.AccessToken data)) in
       Unmarshal (Identity.ConnectorData identity) = (data, None) ∧
       returns (user fuel c client) = Some (u, None) ∧
       Identity.Username identity'
         = (if decide (user.Name u = EmptyString) then user.Login u
            else user.Name u) ∧
       Identity.PreferredUsername identity' = user.Login u ∧
       Identity.Email identity' = user.Email u ∧
       (groupsRequired c (Scopes.Groups s) = true →
        returns (getGroups fuel c client (Scopes.Groups s) (user.Login u))
          = Some (Identity.Groups identity', None))).
Proof.
  unfold Refresh. split.
  - intros ->. by rewrite decide_True.
  - intros identity'.
    destruct (decide (String.length _ = 0%nat)); [done|].
    destruct (Unmarshal (Identity.ConnectorData identity))
      as [data [err|]] eqn:Hdata; [done|].
    intros Hrun. apply returns_bind_inv in Hrun as ([u [err|]] & Hu & Hrun);
      [done|].
    destruct (groupsRequired c (Scopes.Groups s)) eqn:Hreq.
    + apply returns_bind_inv in Hrun as ([groups [err|]] & Hgroups & Hrun);
        [done|].
      injection Hrun as <-. simpl.
      repeat split; try done. exists data, u. by repeat split.
    + injection Hrun as <-. simpl.
      repeat split; try done. exists data, u. by repeat split.
Qed.

(** C10.  Every identity a successful [HandleCallback] returns has its
    e-mail-verified flag set, whatever the configuration, the host, the
    request and the upstream; it is set along with the e-mail of the
    profile, wherever that e-mail came from. *)
Theorem HandleCallback_email_verified (fuel : nat) (up : Upstream) c
    (s : Scopes.t) (r : http_Request.t) (identity : Identity.t) :
  returns (HandleCallback fuel up c s r) = Some (identity, None) →
  Identity.EmailVerified identity = true.
Proof.
  unfold HandleCallback.
  destruct (decide (Values_Get _ "error" ≠ EmptyString)); [done|].
  destruct (Exchange up _ _ _) as [token [err|]]; [done|].
  intros Hrun. apply returns_bind_inv in Hrun as ([u [err|]] & Hu & Hrun);
    [done|].
  apply returns_bind_inv in Hrun as ([identity0 err] & Hgroups & Hrun).
  assert (Identity.EmailVerified identity0 = true) as Hverified.
  { destruct (groupsRequired c (Scopes.Groups s)).
    - apply returns_bind_inv in Hgroups
        as ([groups [err'|]] & _ & Hgroups);
        injection Hgroups as <- _; by destruct (githubConnector.useLoginAsID c).
    - injection Hgroups as <- _. by destruct (githubConnector.useLoginAsID c). }
  destruct err as [err|]; [done|].
  destruct (Scopes.OfflineAccess s).
  - destruct (Marshal _) as [connData [err|]]; [done|].
    by injection Hrun as <-.
  - by injection Hrun as <-.
Qed.
End Flow.

Section FlowExamples.
#[local] Existing Instance example_Env.

Lemma Refresh_frame_witness :
  Identity.ConnectorData
    (Identity.mk "42" "Mona" "mona" "mona@example.com" true ["old:group"]
                 "token") = Identity.ConnectorData example_identity ∧
  Identity.UserID
    (Identity.mk "42" "Mona" "mona" "mona@example.com" true ["old:group"]
                 "token") = Identity.UserID example_identity.
Proof.
  pose proof (proj2 (Refresh_frame 0 example_upstream example_connector None
                       (Scopes.mk false false) example_identity)
                (Identity.mk "42" "Mona" "mona" "mona@example.com" true
                             ["old:group"] "token")
                eq_refl) as (Hdata & Hid & _).
  exact (conj Hdata Hid).
Defined.

Lemma HandleCallback_email_verified_witness :
  Identity.EmailVerified
    (Identity.mk "42" "Mona" "mona" "mona@example.com" true [] "token")
    = true.
Proof.
  exact (HandleCallback_email_verified 0 example_upstream example_connector
           (Scopes.mk true false) example_callback
           (Identity.mk "42" "Mona" "mona" "mona@example.com" true []
                        "token")
           eq_refl).
Defined.
End FlowExamples.

(** ** Examples of pagination *)

Lemma getPagination_relations_witness :
  getPagination example_last_page (Some example_last_response) = EmptyString.
Proof.
  refine (proj1 (proj2 (getPagination_relations example_last_page
                          example_last_response) example_last_page _) eq_refl).
  apply (FirstRel_of_find "last" _ (entry "last" example_last_page)).
  reflexivity.
Defined.

(** * Further properties *)

(** ** Well-formed [Link] headers *)

Lemma append_nil_r (s : string) : s +:+ EmptyString = s.
Proof.
  induction s as [|a s IH]; [done|]. by rewrite append_cons, IH.
Qed.

Lemma has_prefix_app (p x y : string) :
  has_prefix (p +:+ x) (p +:+ y) = has_prefix x y.
Proof.
  induction p as [|a p IH]; [done|]. rewrite !append_cons. simpl.
  by rewrite bool_decide_eq_true_2, IH.
Qed.

Lemma lacks_app (a : ascii) (s t : string) :
  lacks a (s +:+ t) = lacks a s && lacks a t.
Proof.
  induction s as [|b s IH]; [done|]. rewrite append_cons. simpl.
  by rewrite IH, andb_assoc.
Qed.

(** Two relation names without double quote that differ are told apart
    by the pattern. *)
Lemma rel_tail_mismatch (name name' rest : string) :
  lacks (Ascii.ascii_of_nat 34) name = true →
  lacks (Ascii.ascii_of_nat 34) name' = true →
  name ≠ name' →
  has_prefix (rel_tail name) (rel_tail name' +:+ rest) = false.
Proof.
  intros Hq Hq' Hne. unfold rel_tail.
  rewrite !append_assoc, !has_prefix_app.
  revert name' Hq Hq' Hne. induction name as [|a name IH];
    intros [|b name'] Hq Hq' Hne; try done.
  - simpl in Hq'. apply andb_true_iff in Hq' as [Hb _].
    apply bool_decide_eq_true in Hb. rewrite append_cons, append_nil_l.
    simpl. rewrite bool_decide_eq_false_2; [done|]. by intros <-.
  - simpl in Hq. apply andb_true_iff in Hq as [Ha _].
    apply bool_decide_eq_true in Ha. rewrite append_cons, append_nil_l.
    simpl. by rewrite bool_decide_eq_false_2.
  - simpl in Hq, Hq'. apply andb_true_iff in Hq as [_ Hq].
    apply andb_true_iff in Hq' as [_ Hq']. rewrite !append_cons. simpl.
    destruct (decide (a = b)) as [->|Hab].
    + rewrite bool_decide_eq_true_2 by done. simpl.
      apply IH; [done..|]. by intros ->.
    + by rewrite bool_decide_eq_false_2.
Qed.

(** The search passes over text without [<]. *)
Lemma FindStringSubmatch_skip_plain (re : regexp) (w rest : string) :
  lacks lt_sign w = true →
  FindStringSubmatch re (w +:+ rest) = FindStringSubmatch re rest.
Proof.
  induction w as [|a w IH]; [done|]. intros Hw. simpl in Hw.
  apply andb_true_iff in Hw as [Ha Hw]. apply bool_decide_eq_true in Ha.
  rewrite append_cons, FindStringSubmatch_unfold. unfold match_here.
  rewrite decide_False by done. by apply IH.
Qed.

(** The search passes over a URL that another relation follows. *)
Lemma FindStringSubmatch_skip_url (re : regexp) (u t rest : string) :
  no_gt u = true →
  has_prefix (re_tail re) (String gt_sign t +:+ rest) = false →
  FindStringSubmatch re (u +:+ String gt_sign t +:+ rest)
    = FindStringSubmatch re (String gt_sign t +:+ rest).
Proof.
  intros Hu Htail.
  change (String gt_sign t +:+ rest) with (String gt_sign (t +:+ rest)) in *.
  induction u as [|a u IH]; [done|].
  simpl in Hu. apply andb_true_iff in Hu as [_ Hu].
  rewrite append_cons, FindStringSubmatch_unfold.
  assert (match_here re (String a (u +:+ String gt_sign (t +:+ rest))) = None)
    as ->; [|by apply IH].
  unfold match_here. destruct (decide (a = lt_sign)); [|done].
  rewrite span_url_stop by done.
  destruct (decide (u = EmptyString)); [done|]. by rewrite Htail.
Qed.

Lemma renderLinks_cons (l l' : link) (links : list link) :
  renderLinks (l :: l' :: links)
    = entry l.1 l.2 +:+ ", " +:+ renderLinks (l' :: links).
Proof. done. Qed.

Lemma entry_append (name url rest : string) :
  entry name url +:+ rest = String lt_sign (url +:+ rel_tail name +:+ rest).
Proof. unfold entry. by rewrite append_cons, append_assoc. Qed.

(** The search finds an entry of the relation at the start of the text. *)
Lemma FindStringSubmatch_entry (name url rest : string) :
  url ≠ EmptyString → no_gt url = true →
  FindStringSubmatch (MustCompile (rel_tail name)) (entry name url +:+ rest)
    = [entry name url; url].
Proof.
  intros Hurl Hgt. rewrite FindStringSubmatch_unfold.
  assert (match_here (MustCompile (rel_tail name)) (entry name url +:+ rest)
          = Some (entry name url, url)) as ->; [|done].
  apply match_here_spec. split; [done|]. split; [done|]. split; [done|].
  by exists rest.
Qed.

(** The search passes over an entry of another relation. *)
Lemma FindStringSubmatch_skip_entry (name name' url rest : string) :
  url ≠ EmptyString → no_gt url = true →
  lacks (Ascii.ascii_of_nat 34) name = true →
  lacks (Ascii.ascii_of_nat 34) name' = true →
  lacks lt_sign name' = true →
  name' ≠ name →
  FindStringSubmatch (MustCompile (rel_tail name)) (entry name' url +:+ rest)
    = FindStringSubmatch (MustCompile (rel_tail name)) rest.
Proof.
  intros Hurl Hgt Hq Hq' Hlt Hne.
  pose proof (rel_tail_mismatch name name' rest Hq Hq' ltac:(by intros ->))
    as Htail.
  destruct (rel_tail_gt name') as [t Ht].
  rewrite entry_append, FindStringSubmatch_unfold.
  assert (match_here (MustCompile (rel_tail name))
            (String lt_sign (url +:+ rel_tail name' +:+ rest)) = None) as ->.
  { unfold match_here. rewrite decide_True by done.
    rewrite Ht. change (String gt_sign t +:+ rest)
      with (String gt_sign (t +:+ rest)).
    rewrite span_url_stop by done. rewrite decide_False by done.
    change (String gt_sign (t +:+ rest)) with (String gt_sign t +:+ rest).
    rewrite <- Ht. simpl re_tail. by rewrite Htail. }
  rewrite Ht. rewrite FindStringSubmatch_skip_url; [|done|].
  2: { rewrite <- Ht. simpl re_tail. done. }
  rewrite <- Ht. apply FindStringSubmatch_skip_plain.
  unfold rel_tail. rewrite !lacks_app, Hlt. done.
Qed.

(** In a header of well-formed links, the search for a relation finds
    the first link with that relation. *)
Lemma FindStringSubmatch_renderLinks (name : string) (links : list link) :
  lacks (Ascii.ascii_of_nat 34) name = true →
  Forall WellFormedLink links →
  FindStringSubmatch (MustCompile (rel_tail name)) (renderLinks links)
    = match linkOf name links with
      | Some url => [entry name url; url]
      | None => []
      end.
Proof.
  intros Hq. induction 1 as [|[n u] links (Hu & Hgt & Hlt & Hq') _ IH];
    [done|].
  simpl in Hu, Hgt, Hlt, Hq'. simpl linkOf.
  destruct links as [|l' links].
  - change (renderLinks [(n, u)]) with (entry n u).
    rewrite <- (append_nil_r (entry n u)).
    destruct (decide (n = name)) as [->|Hne].
    + by apply FindStringSubmatch_entry.
    + by rewrite FindStringSubmatch_skip_entry.
  - change (renderLinks ((n, u) :: l' :: links))
      with (entry n u +:+ ", " +:+ renderLinks (l' :: links)).
    destruct (decide (n = name)) as [->|Hne].
    + by apply FindStringSubmatch_entry.
    + rewrite FindStringSubmatch_skip_entry by done.
      by rewrite (FindStringSubmatch_skip_plain _ ", ").
Qed.

(** X1.  For a [Link] header made of well-formed links
    [<url>; rel="name"] separated by a comma and a space, [getPagination]
    returns the empty string when no link has the relation [last] or when
    the URL of the first such link is the URL just fetched, and otherwise
    the URL of the first link with the relation [next], or the empty string
    when there is none. *)
Theorem getPagination_renderLinks (apiURL : string) (resp : Response)
    (links : list link) :
  Forall WellFormedLink links →
  Header_Link resp = renderLinks links →
  getPagination apiURL (Some resp)
    = match linkOf "last" links with
      | None => EmptyString
      | Some last =>
          if decide (apiURL = last) then EmptyString
          else default EmptyString (linkOf "next" links)
      end.
Proof.
  intros Hwf Hlink. unfold getPagination, reLast, reNext. rewrite Hlink.
  rewrite !FindStringSubmatch_renderLinks by done.
  destruct (linkOf "last" links) as [last|]; [|done]. simpl.
  destruct (decide (apiURL = last)); [done|].
  by destruct (linkOf "next" links).
Qed.

Lemma getPagination_renderLinks_witness :
  getPagination "https://api.github.com/user/teams?page=2"
    (Some example_links_response)
    = "https://api.github.com/user/teams?page=3".
Proof.
  refine (getPagination_renderLinks _ example_links_response example_links
            _ eq_refl).
  repeat (constructor; [by repeat split|]). constructor.
Defined.

(** ** Crawls *)

Section Crawls.
Context `{!Env}.
Implicit Types (c : githubConnector.t) (client : Client).

(** X2.  When the first page of teams is served with a [Link] header that
    has no relation [last], or whose relation [last] is the URL just
    fetched, [teamsForOrg] stops there, whatever relation [next] the
    header has: it returns the teams of that page and has sent one
    request. *)
Theorem teamsForOrg_single_page c client (orgName : string) (resp : Response)
    (teams : list team.t) (fuel : nat) :
  NewRequest (c.(githubConnector.apiURL) +:+ "/user/teams") = None →
  client (c.(githubConnector.apiURL) +:+ "/user/teams") = DoOk resp →
  StatusCode resp = StatusOK →
  Decode (Body resp) = (teams, None) →
  NoRel "last" (Header_Link resp)
  ∨ FirstRel "last" (Header_Link resp)
      (c.(githubConnector.apiURL) +:+ "/user/teams") →
  teamsForOrg (S fuel) c client orgName
    = Some ((teamsOfOrg c orgName teams, None),
            [Request (c.(githubConnector.apiURL) +:+ "/user/teams")]).
Proof.
  intros Hreq Hdo Hstatus Hdecode Hlast. unfold teamsForOrg. simpl.
  rewrite (get_response _ _ _ _ Hreq Hdo), decide_True, Hdecode by done.
  assert (getPagination (c.(githubConnector.apiURL) +:+ "/user/teams")
            (Some resp) = EmptyString) as ->.
  { unfold getPagination, reLast. destruct Hlast as [Hno|Hfirst].
    - by rewrite (FindStringSubmatch_NoRel _ _ Hno).
    - rewrite (FindStringSubmatch_FirstRel _ _ _ Hfirst). simpl.
      by rewrite decide_True. }
  simpl. by rewrite fold_left_filter_bind.
Qed.

Lemma Crawl_Pages {A : Type} `{!JSON (list A)} client (url : string)
    (visits : list (string * list A)) :
  Crawl client url visits → Pages client url visits.*2.
Proof.
  induction 1 as [url page Hget|url next page rest Hget Hnext _ IH].
  - by apply Pages_last.
  - by apply (Pages_next _ _ next).
Qed.

(** From a URL, the upstream being what it is, there is one crawl. *)
Lemma Crawl_deterministic {A : Type} `{!JSON (list A)} client (url : string)
    (visits visits' : list (string * list A)) :
  Crawl client url visits → Crawl client url visits' → visits = visits'.
Proof.
  intros Hcrawl. revert visits'.
  induction Hcrawl as [url page Hget|url next page rest Hget Hnext _ IH];
    intros visits' Hcrawl'; inversion Hcrawl'; subst; try congruence.
  assert (next0 = next) as -> by congruence.
  assert (page0 = page) as -> by congruence.
  f_equal. by apply IH.
Qed.

Lemma Crawl_from_visit {A : Type} `{!JSON (list A)} client (url u : string)
    (visits : list (string * list A)) :
  Crawl client url visits → u ∈ visits.*1 →
  ∃ visits', Crawl client u visits' ∧ (length visits' ≤ length visits)%nat.
Proof.
  induction 1 as [url page Hget|url next page rest Hget Hnext Hrest IH];
    simpl; intros Hu.
  - apply list_elem_of_singleton in Hu as ->. exists [(url, page)].
    split; [by apply Crawl_last | done].
  - apply elem_of_cons in Hu as [->|Hu].
    + exists ((url, page) :: rest). split; [|done].
      by apply (Crawl_next _ _ next).
    + destruct (IH Hu) as (visits' & Hcrawl' & Hlen).
      exists visits'. split; [done | simpl; lia].
Qed.

(** A crawl that ends has fetched no URL twice. *)
Lemma Crawl_NoDup {A : Type} `{!JSON (list A)} client (url : string)
    (visits : list (string * list A)) :
  Crawl client url visits → NoDup visits.*1.
Proof.
  induction 1 as [url page Hget|url next page rest Hget Hnext Hrest IH];
    simpl.
  - apply NoDup_singleton.
  - apply NoDup_cons. split; [|done]. intros Hin.
    destruct (Crawl_from_visit _ _ _ _ Hrest Hin) as (visits' & Hcrawl' & Hlen).
    pose proof (Crawl_deterministic _ _ _ _ Hcrawl'
                  (Crawl_next _ _ _ _ _ Hget Hnext Hrest)) as ->.
    simpl in Hlen. lia.
Qed.

Lemma teamsForOrg_loop_crawl c client (orgName : string) (url : string)
    (visits : list (string * list team.t)) :
  Crawl client url visits →
  ∀ (fuel : nat) (groups : list string),
    (length visits ≤ fuel)%nat →
    teamsForOrg_loop fuel c client orgName url groups
      = Some ((groups ++ teamsOfOrg c orgName (concat visits.*2), None),
              Request <$> visits.*1).
Proof.
  induction 1 as [url page Hget|url next page rest Hget Hnext _ IH];
    intros [|fuel] groups Hfuel; simpl in Hfuel; try lia;
    simpl teamsForOrg_loop; rewrite (get_ok_events _ _ _ _ _ Hget);
    simpl; rewrite fold_left_filter_bind.
  - by rewrite app_nil_r.
  - rewrite decide_False by done. rewrite IH by lia.
    by rewrite teamsOfOrg_app, app_assoc.
Qed.

(** X3.  When the crawl of the team pages ends, [teamsForOrg] returns the
    claims of the teams of the org, in the order of the pages and of the
    teams on them; it has sent one request for each page, in the order of
    the pages, and none of them twice. *)
Theorem teamsForOrg_crawl c client (orgName : string)
    (visits : list (string * list team.t)) (fuel : nat) :
  Crawl client (c.(githubConnector.apiURL) +:+ "/user/teams") visits →
  (length visits ≤ fuel)%nat →
  teamsForOrg fuel c client orgName
    = Some ((teamsOfOrg c orgName (concat visits.*2), None),
            Request <$> visits.*1)
  ∧ NoDup visits.*1.
Proof.
  intros Hcrawl Hfuel. split; [|by eapply Crawl_NoDup].
  unfold teamsForOrg. by rewrite (teamsForOrg_loop_crawl _ _ _ _ _ Hcrawl).
Qed.

Lemma teamsForOrg_loop_abort c client (orgName : string) (url next : string)
    (pages : list (list team.t)) (v : list team.t) (n : string) (err : error) :
  PagesTo client url pages next →
  returns (get client next []) = Some (v, n, Some err) →
  ∀ (fuel : nat) (groups : list string),
    (length pages < fuel)%nat →
    returns (teamsForOrg_loop fuel c client orgName url groups)
      = Some ([], Some (Errorf_v "github: get teams: " err)).
Proof.
  intros Hpages Hfail.
  induction Hpages as [url|url next final page rest Hget Hnext _ IH];
    intros [|fuel] groups Hfuel; simpl in Hfuel; try lia;
    simpl teamsForOrg_loop.
  - by rewrite (returns_bind_Some _ _ _ Hfail).
  - rewrite (returns_bind_Some _ _ _ Hget). cbv beta iota.
    rewrite decide_False by done. apply IH; [done | lia].
Qed.

(** X4.  When a page of teams cannot be fetched or decoded, [teamsForOrg]
    returns the error of that fetch, marked as a failure to get the
    teams, and none of the teams of the pages fetched before. *)
Theorem teamsForOrg_abort c client (orgName : string) (next : string)
    (pages : list (list team.t)) (v : list team.t) (n : string) (err : error)
    (fuel : nat) :
  PagesTo client (c.(githubConnector.apiURL) +:+ "/user/teams") pages next →
  returns (get client next []) = Some (v, n, Some err) →
  (length pages < fuel)%nat →
  returns (teamsForOrg fuel c client orgName)
    = Some ([], Some (Errorf_v "github: get teams: " err)).
Proof.
  intros Hpages Hfail Hfuel. unfold teamsForOrg.
  by apply (teamsForOrg_loop_abort _ _ _ _ next pages v n).
Qed.
End Crawls.

Section CrawlExamples.
#[local] Existing Instance example_Env.

Lemma teamsForOrg_single_page_witness :
  teamsForOrg 1 example_connector example_self_last_client "A"
    = Some ((["x"], None), [Request "https://api.github.com/user/teams"]).
Proof.
  refine (teamsForOrg_single_page example_connector example_self_last_client
            "A" example_self_last_response
            [team.mk "x" (org.mk "A") "x"] 0 eq_refl eq_refl eq_refl eq_refl _).
  right. apply (FirstRel_of_find "last" _
                  (entry "last" "https://api.github.com/user/teams")).
  reflexivity.
Defined.

Lemma teamsForOrg_crawl_witness :
  teamsForOrg 2 example_connector example_two_pages_client "A"
    = Some ((["x"; "y"], None),
            [Request "https://api.github.com/user/teams";
             Request "https://api.github.com/user/teams?page=2"])
  ∧ NoDup ["https://api.github.com/user/teams";
           "https://api.github.com/user/teams?page=2"].
Proof.
  refine (teamsForOrg_crawl example_connector example_two_pages_client "A"
            [("https://api.github.com/user/teams",
              [team.mk "x" (org.mk "A") "x"]);
             ("https://api.github.com/user/teams?page=2",
              [team.mk "y" (org.mk "A") "y"])] 2 _ _).
  - apply (Crawl_next _ _ "https://api.github.com/user/teams?page=2");
      [reflexivity | done | apply Crawl_last; reflexivity].
  - simpl. lia.
Defined.

Lemma teamsForOrg_abort_witness :
  returns (teamsForOrg 2 example_connector example_broken_page_client "A")
    = Some ([], Some (Errorf_v "github: get teams: "
                        (errorString "502 Bad Gateway: "))).
Proof.
  refine (teamsForOrg_abort example_connector example_broken_page_client "A"
            "https://api.github.com/user/teams?page=2"
            [[team.mk "x" (org.mk "A") "x"]] [] EmptyString _ 2 _ _ _).
  - apply (PagesTo_cons _ _ "https://api.github.com/user/teams?page=2");
      [reflexivity | done | apply PagesTo_nil].
  - reflexivity.
  - simpl. lia.
Defined.
End CrawlExamples.

(** ** Membership and provenance of groups *)

Section Membership.
Context `{!Env}.
Implicit Types (c : githubConnector.t) (client : Client).

(** A membership check answered with an unexpected status is an error. *)
Lemma userInOrg_hard c client (userName orgName : string) (resp : Response) :
  NewRequest (membershipURL c userName orgName) = None →
  client (membershipURL c userName orgName) = DoOk resp →
  StatusCode resp ∉ [StatusNoContent; StatusFound; StatusNotFound] →
  returns (userInOrg c client userName orgName)
    = Some (false,
            Some (errorString ("github: unexpected return status: "
                                 +:+ Quote (Status resp)))).
Proof.
  unfold userInOrg. fold (membershipURL c userName orgName).
  intros Hreq Hdo Hstatus. rewrite Hreq, Hdo. simpl.
  rewrite !not_elem_of_cons in Hstatus. destruct Hstatus as (? & ? & ? & _).
  rewrite decide_False by done. rewrite decide_False by tauto.
  simpl. by rewrite bool_decide_eq_false_2.
Qed.

(** X5.  [userInOrg] reports a member only when the membership check was
    answered [204], and then with no error; with a status other than
    [204], [302] and [404] it reports no member and the error that quotes
    the status line. *)
Theorem userInOrg_sound c client (userName orgName : string) :
  (∀ err, returns (userInOrg c client userName orgName) = Some (true, err) →
     err = None ∧
     ∃ resp, client (membershipURL c userName orgName) = DoOk resp ∧
             StatusCode resp = StatusNoContent) ∧
  (∀ resp,
     NewRequest (membershipURL c userName orgName) = None →
     client (membershipURL c userName orgName) = DoOk resp →
     StatusCode resp ∉ [StatusNoContent; StatusFound; StatusNotFound] →
     returns (userInOrg c client userName orgName)
       = Some (false,
               Some (errorString ("github: unexpected return status: "
                                    +:+ Quote (Status resp))))).
Proof.
  split; [|apply userInOrg_hard].
  unfold userInOrg. fold (membershipURL c userName orgName).
  intros err. destruct (NewRequest _); [done|]. simpl.
  destruct (client _) as [resp|e]; [|done].
  destruct (decide (StatusCode resp = StatusNoContent)) as [Hs|Hs].
  - simpl. rewrite bool_decide_eq_true_2 by done. intros [= <-]. eauto.
  - rewrite (bool_decide_eq_false_2 _ Hs).
    by destruct (decide (_ ∨ _)).
Qed.

(** The loop over the configured orgs, through a first part of them. *)
Lemma groupsForOrgs_range_app c client (userName : string)
    (pages : list (list team.t)) (fuel : nat) (rest : list Org.t) :
  ∀ (orgs : list Org.t) (groups : list string) (inOrgNoTeams : bool),
    Forall (λ o, Conclusive c client userName (Org.Name o)) orgs →
    ((∃ o, o ∈ orgs ∧ confirmed c client userName (Org.Name o) = true) →
     Pages client (c.(githubConnector.apiURL) +:+ "/user/teams") pages ∧
     (length pages ≤ fuel)%nat) →
    returns (groupsForOrgs_range fuel c client userName (orgs ++ rest) groups
               inOrgNoTeams)
      = returns (groupsForOrgs_range fuel c client userName rest
                   (groups ++ orgListGroups c client userName (concat pages) orgs)
                   (inOrgNoTeams || memberOfOpenOrg c client userName orgs)).
Proof.
  induction orgs as [|o orgs IH]; intros groups inOrgNoTeams Hconcl Hteams.
  - unfold orgListGroups. simpl. by rewrite app_nil_r, orb_false_r.
  - apply Forall_cons in Hconcl as [Ho Hconcl].
    assert ((∃ o', o' ∈ orgs ∧ confirmed c client userName (Org.Name o') = true)
            → Pages client (c.(githubConnector.apiURL) +:+ "/user/teams") pages
              ∧ (length pages ≤ fuel)%nat) as Hteams'.
    { intros (o' & Ho' & Hc). apply Hteams. exists o'. split; [by right|done]. }
    simpl app. simpl groupsForOrgs_range.
    rewrite (returns_bind_Some _ _ _ (userInOrg_conclusive _ _ _ _ Ho)).
    unfold orgListGroups, memberOfOpenOrg.
    destruct (confirmed c client userName (Org.Name o)) eqn:Hconf; simpl negb.
    + assert (orgGroups c client userName (concat pages) o
              = formatTeamName (Org.Name o) <$> keptTeams c (concat pages) o)
        as -> by (unfold orgGroups; by rewrite Hconf).
      destruct Hteams as [Hpages Hfuel]; [exists o; split; [left|done]|].
      cbv iota.
      rewrite (returns_bind_Some _ _ _ (teamsForOrg_pages _ _ _ _ _ Hpages Hfuel)).
      cbv beta iota.
      set (teams := teamsOfOrg c (Org.Name o) (concat pages)).
      match goal with
      | |- returns (bind ?m _) = _ =>
          assert (returns m
                  = Some (keptTeams c (concat pages) o,
                          inOrgNoTeams || bool_decide (Org.Teams o = [])))
            as Hinner
      end.
      { unfold keptTeams. fold teams.
        destruct (Org.Teams o) as [|t ts] eqn:Hts.
        - simpl. by rewrite orb_true_r.
        - rewrite decide_False by done.
          rewrite (decide_False (P := _ = [])) by done.
          rewrite bool_decide_eq_false_2 by done. rewrite orb_false_r.
          by destruct (decide (length (Filter teams (t :: ts)) = 0%nat)). }
      rewrite (returns_bind_Some _ _ _ Hinner). cbv beta iota.
      rewrite fold_left_snoc. rewrite (IH _ _ Hconcl Hteams').
      unfold orgListGroups, memberOfOpenOrg.
      rewrite <- !app_assoc. by rewrite <- !orb_assoc.
    + assert (orgGroups c client userName (concat pages) o = []) as ->
        by (unfold orgGroups; by rewrite Hconf).
      cbv iota. rewrite (IH _ _ Hconcl Hteams').
      unfold orgListGroups, memberOfOpenOrg. done.
Qed.

(** X6.  In org-list mode, a membership check answered with a status
    other than [204], [302] and [404] ends the resolution with the error
    of that check and no group, whatever the orgs before it in the list
    have granted and whatever the orgs after it would. *)
Theorem groupsForOrgs_hard_error c client (userName : string)
    (before after : list Org.t) (o : Org.t) (resp : Response)
    (pages : list (list team.t)) (fuel : nat) :
  c.(githubConnector.orgs) = before ++ o :: after →
  Forall (λ o, Conclusive c client userName (Org.Name o)) before →
  ((∃ o', o' ∈ before ∧ confirmed c client userName (Org.Name o') = true) →
   Pages client (c.(githubConnector.apiURL) +:+ "/user/teams") pages ∧
   (length pages ≤ fuel)%nat) →
  NewRequest (membershipURL c userName (Org.Name o)) = None →
  client (membershipURL c userName (Org.Name o)) = DoOk resp →
  StatusCode resp ∉ [StatusNoContent; StatusFound; StatusNotFound] →
  returns (groupsForOrgs fuel c client userName)
    = Some ([], Some (errorString ("github: unexpected return status: "
                                     +:+ Quote (Status resp)))).
Proof.
  intros Horgs Hconcl Hteams Hreq Hdo Hstatus. unfold groupsForOrgs.
  rewrite Horgs.
  rewrite (groupsForOrgs_range_app c client userName pages fuel) by done.
  simpl groupsForOrgs_range.
  by rewrite (returns_bind_Some _ _ _
                (userInOrg_hard c client userName (Org.Name o) resp
                   Hreq Hdo Hstatus)).
Qed.
(** A claim of a team is its name or its slug. *)
Lemma teamGroupClaims_elem c (t : team.t) (s : string) :
  s ∈ teamGroupClaims c t → s = team.Name t ∨ s = team.Slug t.
Proof.
  unfold teamGroupClaims. repeat destruct (decide _);
    rewrite ?elem_of_cons, ?elem_of_nil; tauto.
Qed.

Lemma teamsOfOrg_elem c (orgName : string) (teams : list team.t) (s : string) :
  s ∈ teamsOfOrg c orgName teams ↔
  ∃ t, t ∈ teams ∧ org.Login (team.Org t) = orgName ∧ s ∈ teamGroupClaims c t.
Proof.
  unfold teamsOfOrg. rewrite list_elem_of_bind.
  setoid_rewrite list_elem_of_filter. split.
  - intros (t & Hs & Horg & Ht). eauto.
  - intros (t & Ht & Horg & Hs). eauto.
Qed.

(** X7.  In org-list mode, every group returned is [org:team] for a
    configured org of which the user is a confirmed member, and for the
    name or the slug of a team that the team pages list for the user in
    that org; when the org has an allow-list, the team part of the group
    is on the allow-list. *)
Theorem groupsForOrgs_provenance c client (userName : string)
    (pages : list (list team.t)) (fuel : nat) (groups : list string)
    (err : option error) :
  Forall (λ o, Conclusive c client userName (Org.Name o))
         c.(githubConnector.orgs) →
  ((∃ o, o ∈ c.(githubConnector.orgs) ∧
         confirmed c client userName (Org.Name o) = true) →
   Pages client (c.(githubConnector.apiURL) +:+ "/user/teams") pages ∧
   (length pages ≤ fuel)%nat) →
  returns (groupsForOrgs fuel c client userName) = Some (groups, err) →
  ∀ g, g ∈ groups →
    ∃ (o : Org.t) (t : team.t) (s : string),
      o ∈ c.(githubConnector.orgs) ∧
      confirmed c client userName (Org.Name o) = true ∧
      t ∈ concat pages ∧
      org.Login (team.Org t) = Org.Name o ∧
      (s = team.Name t ∨ s = team.Slug t) ∧
      g = formatTeamName (Org.Name o) s ∧
      (Org.Teams o ≠ [] → s ∈ Org.Teams o).
Proof.
  intros Hconcl Hteams.
  rewrite (groupsForOrgs_spec c client userName pages fuel Hconcl Hteams).
  cbv zeta. intros Hrun g Hg.
  assert (g ∈ orgListGroups c client userName (concat pages)
                c.(githubConnector.orgs)) as Hin.
  { destruct (memberOfOpenOrg _ _ _ _ || _); injection Hrun as <- _;
      [done | by apply elem_of_nil in Hg]. }
  unfold orgListGroups in Hin. apply list_elem_of_bind in Hin as (o & Hgo & Ho).
  unfold orgGroups in Hgo.
  destruct (confirmed c client userName (Org.Name o)) eqn:Hconf;
    [|by apply elem_of_nil in Hgo].
  apply list_elem_of_fmap in Hgo as (s & -> & Hs).
  assert (s ∈ teamsOfOrg c (Org.Name o) (concat pages)
          ∧ (Org.Teams o ≠ [] → s ∈ Org.Teams o)) as [Hs' Hallow].
  { unfold keptTeams, Filter in Hs. destruct (decide (Org.Teams o = [])).
    - done.
    - apply list_elem_of_filter in Hs as [? ?]. done. }
  apply teamsOfOrg_elem in Hs' as (t & Ht & Horg & Hclaim).
  exists o, t, s. repeat split; try done. by eapply teamGroupClaims_elem.
Qed.

(** X8.  In load-all mode, with the org pages and the team pages
    served, the groups returned are exactly the logins of the orgs the
    org pages list and, for each of them, [org:team] for the claims of the
    teams the team pages list in that org: an org without team appears
    alone, and a team of an org that is not listed appears nowhere. *)
Theorem userGroups_members c client (orgPages : list (list org.t))
    (teamPages : list (list team.t)) (fuel : nat) :
  Pages client (c.(githubConnector.apiURL) +:+ "/user/orgs") orgPages →
  Pages client (c.(githubConnector.apiURL) +:+ "/user/teams") teamPages →
  (length orgPages ≤ fuel)%nat →
  (length teamPages ≤ fuel)%nat →
  ∃ groups,
    returns (userGroups fuel c client) = Some (groups, None) ∧
    ∀ g, g ∈ groups ↔
      ∃ o, o ∈ concat orgPages ∧
        (g = org.Login o ∨
         ∃ t s, t ∈ concat teamPages ∧
                org.Login (team.Org t) = org.Login o ∧
                s ∈ teamGroupClaims c t ∧
                g = formatTeamName (org.Login o) s).
Proof.
  intros Horgs Hteams Hfo Hft. eexists. split.
  - by apply (userGroups_pages c client orgPages teamPages fuel).
  - intros g. unfold allGroups. rewrite list_elem_of_bind. split.
    + intros (login & Hg & Hlogin).
      apply list_elem_of_fmap in Hlogin as (o & -> & Ho).
      exists o. split; [done|].
      apply elem_of_cons in Hg as [->|Hg]; [by left|]. right.
      apply list_elem_of_fmap in Hg as (s & -> & Hs).
      apply teamsOfOrg_elem in Hs as (t & Ht & Horg & Hclaim). eauto 10.
    + intros (o & Ho & Hg). exists (org.Login o).
      split; [|apply list_elem_of_fmap; eauto].
      destruct Hg as [->|(t & s & Ht & Horg & Hclaim & ->)]; [by left|].
      right. apply list_elem_of_fmap. exists s. split; [done|].
      apply teamsOfOrg_elem. eauto.
Qed.
End Membership.

Section MembershipExamples.
#[local] Existing Instance example_Env.

Lemma userInOrg_sound_witness :
  returns (userInOrg example_hard_error_connector example_hard_error_client
             "mona" "B")
    = Some (false,
            Some (errorString ("github: unexpected return status: "
                                 +:+ Quote "500 Internal Server Error"))).
Proof.
  refine (proj2 (userInOrg_sound example_hard_error_connector
                   example_hard_error_client "mona" "B")
            (mkResponse 500 "500 Internal Server Error" EmptyString
                        (EmptyString, None)) eq_refl eq_refl _).
  refine (bool_decide_unpack _ _). by vm_compute.
Defined.

Lemma groupsForOrgs_hard_error_witness :
  returns (groupsForOrgs 1 example_hard_error_connector
             example_hard_error_client "mona")
    = Some ([], Some (errorString ("github: unexpected return status: "
                                     +:+ Quote "500 Internal Server Error"))).
Proof.
  refine (groupsForOrgs_hard_error example_hard_error_connector
            example_hard_error_client "mona" [Org.mk "A" ["x"]] []
            (Org.mk "B" [])
            (mkResponse 500 "500 Internal Server Error" EmptyString
                        (EmptyString, None))
            [[team.mk "x" (org.mk "A") "x"]] 1 eq_refl _ _ eq_refl eq_refl _).
  - constructor; [|constructor].
    split; [reflexivity | eexists; split; [reflexivity | by left]].
  - intros _. split; [apply Pages_last; reflexivity | simpl; lia].
  - refine (bool_decide_unpack _ _). by vm_compute.
Defined.

Lemma groupsForOrgs_provenance_witness :
  ∃ (o : Org.t) (t : team.t) (s : string),
    o ∈ example_orgs_connector.(githubConnector.orgs) ∧
    confirmed example_orgs_connector (example_orgs_client "x|A|x,y|B|y")
      "mona" (Org.Name o) = true ∧
    t ∈ concat [[team.mk "x" (org.mk "A") "x"; team.mk "y" (org.mk "B") "y"]] ∧
    org.Login (team.Org t) = Org.Name o ∧
    (s = team.Name t ∨ s = team.Slug t) ∧
    "B:y" = formatTeamName (Org.Name o) s ∧
    (Org.Teams o ≠ [] → s ∈ Org.Teams o).
Proof.
  refine (groupsForOrgs_provenance example_orgs_connector
            (example_orgs_client "x|A|x,y|B|y") "mona"
            [[team.mk "x" (org.mk "A") "x"; team.mk "y" (org.mk "B") "y"]]
            1 ["A:x"; "B:y"] None _ _ eq_refl "B:y" _).
  - repeat (constructor;
            [split; [reflexivity
                    | eexists; split; [reflexivity | vm_compute; tauto]]|]).
    constructor.
  - intros _. split; [apply Pages_last; reflexivity | simpl; lia].
  - right. left.
Defined.

Lemma userGroups_members_witness :
  ∃ groups,
    returns (userGroups 1 example_load_all_connector example_load_all_client)
      = Some (groups, None) ∧
    ∀ g, g ∈ groups ↔
      ∃ o, o ∈ concat [[org.mk "A"]] ∧
        (g = org.Login o ∨
         ∃ t s, t ∈ concat [[team.mk "x" (org.mk "A") "x";
                             team.mk "z" (org.mk "Z") "z"]] ∧
                org.Login (team.Org t) = org.Login o ∧
                s ∈ teamGroupClaims example_load_all_connector t ∧
                g = formatTeamName (org.Login o) s).
Proof.
  refine (userGroups_members example_load_all_connector example_load_all_client
            [[org.mk "A"]]
            [[team.mk "x" (org.mk "A") "x"; team.mk "z" (org.mk "Z") "z"]]
            1 _ _ _ _).
  - apply Pages_last. reflexivity.
  - apply Pages_last. reflexivity.
  - simpl. lia.
  - simpl. lia.
Defined.
End MembershipExamples.

(** ** E-mails *)

Section Emails.
Context `{!Env}.
Implicit Types (c : githubConnector.t) (client : Client).

Lemma userEmail_range_malformed c (emails : list userEmail.t) :
  c.(githubConnector.preferredEmailDomain) ≠ EmptyString →
  (∃ e, e ∈ emails ∧ hasAt e = false) →
  ∀ (primaryEmail : userEmail.t) (preferredEmails : list userEmail.t),
    userEmail_range c emails primaryEmail preferredEmails
      = inr (errors_New "github: invalid format email is detected").
Proof.
  intros Hpref. induction emails as [|e emails IH];
    intros (e' & He' & Hat) p prefs; [by apply elem_of_nil in He'|].
  simpl userEmail_range. fold (asRead c e). rewrite decide_True by done.
  assert (userEmail.Email (asRead c e) = userEmail.Email e) as ->
    by (unfold asRead; by destruct (decide _)).
  destruct (Cut (userEmail.Email e) "@") as [[before after] ok] eqn:Hcut.
  destruct ok; [|done]. simpl negb. cbv iota. apply IH.
  apply elem_of_cons in He' as [->|He']; [|eauto].
  unfold hasAt in Hat. by rewrite Hcut in Hat.
Qed.

Lemma userEmail_loop_malformed c client (url next : string)
    (pages : list (list userEmail.t)) (page : list userEmail.t) (n : string) :
  c.(githubConnector.preferredEmailDomain) ≠ EmptyString →
  PagesTo client url pages next →
  WellFormed c (concat pages) →
  returns (get client next []) = Some (page, n, None) →
  (∃ e, e ∈ page ∧ hasAt e = false) →
  ∀ (fuel : nat) (primaryEmail : userEmail.t)
    (preferredEmails : list userEmail.t),
    (length pages < fuel)%nat →
    returns (userEmail_loop fuel c client url primaryEmail preferredEmails)
      = Some (EmptyString,
              Some (errors_New "github: invalid format email is detected")).
Proof.
  intros Hpref Hpages Hwf Hpage Hbad.
  induction Hpages as [url|url next final page0 rest Hget Hnext _ IH];
    intros [|fuel] p prefs Hfuel; simpl in Hfuel; try lia;
    simpl userEmail_loop.
  - rewrite (returns_bind_Some _ _ _ Hpage). cbv beta iota.
    by rewrite (userEmail_range_malformed c page Hpref Hbad).
  - simpl concat in Hwf. apply WellFormed_app in Hwf as [Hwf0 Hwf].
    rewrite (returns_bind_Some _ _ _ Hget). cbv beta iota.
    rewrite (userEmail_range_spec c page0 Hwf0).
    rewrite decide_False by done. apply IH; [done.. | lia].
Qed.

(** X9.  With a preferred domain configured, an address without [@] on a
    page of the private e-mails ends [userEmail] with the error of an
    invalid e-mail, whatever the e-mails seen before it, an e-mail of the
    preferred domain included. *)
Theorem userEmail_malformed c client (next : string)
    (pages : list (list userEmail.t)) (page : list userEmail.t) (n : string)
    (fuel : nat) :
  c.(githubConnector.preferredEmailDomain) ≠ EmptyString →
  PagesTo client (c.(githubConnector.apiURL) +:+ "/user/emails") pages next →
  WellFormed c (concat pages) →
  returns (get client next []) = Some (page, n, None) →
  (∃ e, e ∈ page ∧ hasAt e = false) →
  (length pages < fuel)%nat →
  returns (userEmail fuel c client)
    = Some (EmptyString,
            Some (errors_New "github: invalid format email is detected")).
Proof.
  intros Hpref Hpages Hwf Hpage Hbad Hfuel. unfold userEmail.
  by apply (userEmail_loop_malformed c client _ next pages page n).
Qed.

Lemma userEmail_chosen c client (pages : list (list userEmail.t))
    (fuel : nat) :
  Pages client (c.(githubConnector.apiURL) +:+ "/user/emails") pages →
  WellFormed c (concat pages) →
  (length pages ≤ fuel)%nat →
  returns (userEmail fuel c client) = Some (chosenEmail c (concat pages)).
Proof.
  intros Hpages Hwf Hfuel. unfold userEmail.
  rewrite (userEmail_loop_pages c client _ pages Hpages Hwf) by done.
  by rewrite finalEmail_chosen.
Qed.

Lemma asRead_enterprise c (emails emails' : list userEmail.t) :
  c.(githubConnector.hostName) ≠ EmptyString →
  Forall2 sameButVerified emails emails' →
  asRead c <$> emails = asRead c <$> emails'.
Proof.
  intros Hhost. induction 1 as [|e e' emails emails' (He & Hp & Hv) _ IH];
    [done|].
  rewrite !fmap_cons, IH. f_equal. unfold asRead.
  rewrite !decide_True by done.
  destruct e, e'. simpl in *. by subst.
Qed.

(** X10.  With an enterprise host, the verification flags of the e-mails
    play no part: two upstreams whose e-mails differ in these flags only
    make [userEmail] return the same. *)
Theorem userEmail_enterprise c client client'
    (pages pages' : list (list userEmail.t)) (fuel fuel' : nat) :
  c.(githubConnector.hostName) ≠ EmptyString →
  Pages client (c.(githubConnector.apiURL) +:+ "/user/emails") pages →
  Pages client' (c.(githubConnector.apiURL) +:+ "/user/emails") pages' →
  Forall2 sameButVerified (concat pages) (concat pages') →
  WellFormed c (concat pages) →
  (length pages ≤ fuel)%nat →
  (length pages' ≤ fuel')%nat →
  returns (userEmail fuel c client) = returns (userEmail fuel' c client').
Proof.
  intros Hhost Hpages Hpages' Hsame Hwf Hfuel Hfuel'.
  assert (WellFormed c (concat pages')) as Hwf'.
  { intros Hpref. specialize (Hwf Hpref). revert Hwf.
    induction Hsame as [|e e' es es' (He & _) _ IH]; [done|].
    rewrite !Forall_cons. unfold hasAt. rewrite He. tauto. }
  rewrite (userEmail_chosen c client pages fuel) by done.
  rewrite (userEmail_chosen c client' pages' fuel') by done.
  unfold chosenEmail, preferredOf, fallbackOf.
  by rewrite (asRead_enterprise c _ _ Hhost Hsame).
Qed.

(** X11.  A preferred domain without wildcard label accepts itself and
    nothing else. *)
Theorem isPreferredEmailDomain_literal c (domain : string) :
  Forall (λ p, p ≠ "*") (Split c.(githubConnector.preferredEmailDomain) ".") →
  isPreferredEmailDomain c domain = true
  ↔ domain = c.(githubConnector.preferredEmailDomain).
Proof.
  intros Hstar. unfold isPreferredEmailDomain.
  destruct (decide (domain = _)) as [->|Hne]; [done|].
  split; [|done]. destruct (decide (length _ ≠ length _)) as [|Hlen]; [done|].
  apply dec_stable in Hlen. intros Hrange.
  apply (isPreferredEmailDomain_range_spec _ _ 0) in Hrange;
    [|by rewrite drop_0].
  rewrite drop_0 in Hrange.
  assert (Split domain "." = Split c.(githubConnector.preferredEmailDomain) ".")
    as Hsplit.
  { revert Hstar Hrange. generalize (Split domain ".").
    generalize (Split c.(githubConnector.preferredEmailDomain) ".").
    intros ps ds Hstar Hmatch.
    induction Hmatch as [|p d ps ds Hpd _ IH]; [done|].
    apply Forall_cons in Hstar as [Hp Hstar].
    destruct Hpd as [-> | ->]; [by rewrite IH | done]. }
  by rewrite <- (Split_concat domain "."), Hsplit, Split_concat.
Qed.

(** X12.  When the shortcut of the non-disclosing e-mail does not apply,
    the profile has a public e-mail and no preferred domain is configured,
    [user] returns the profile as it was fetched, and has sent no request
    but the one for the profile. *)
Theorem user_public_email c client (fuel : nat) (u : user.t) (next : string) :
  returns (get client (c.(githubConnector.apiURL) +:+ "/user") user.zero)
    = Some (u, next, None) →
  c.(githubConnector.noreplyPrivateEmail) = false
  ∨ (c.(githubConnector.hostName) ≠ EmptyString
     ∧ c.(githubConnector.hostName) ≠ "github.com") →
  user.Email u ≠ EmptyString →
  c.(githubConnector.preferredEmailDomain) = EmptyString →
  user fuel c client
    = Some ((u, None), [Request (c.(githubConnector.apiURL) +:+ "/user")]).
Proof.
  intros Hget Hshortcut Hemail Hpref. apply get_ok_events in Hget.
  unfold user. rewrite Hget. simpl.
  assert (c.(githubConnector.noreplyPrivateEmail)
          && (bool_decide (c.(githubConnector.hostName) = EmptyString)
              || bool_decide (c.(githubConnector.hostName) = "github.com"))
          = false) as ->.
  { destruct Hshortcut as [->|[? ?]]; [done|].
    rewrite !bool_decide_eq_false_2 by done. apply andb_false_r. }
  rewrite Hpref. by rewrite bool_decide_eq_false_2.
Qed.

(** X13.  When the shortcut of the non-disclosing e-mail does not apply
    and the profile has no public e-mail or a preferred domain is
    configured, the e-mail of the profile [user] returns is the one chosen
    among the private e-mails, whatever the public e-mail; when none can
    be chosen, [user] returns that error and an empty e-mail. *)
Theorem user_private_email c client (fuel : nat) (u : user.t) (next : string)
    (pages : list (list userEmail.t)) :
  returns (get client (c.(githubConnector.apiURL) +:+ "/user") user.zero)
    = Some (u, next, None) →
  c.(githubConnector.noreplyPrivateEmail) = false
  ∨ (c.(githubConnector.hostName) ≠ EmptyString
     ∧ c.(githubConnector.hostName) ≠ "github.com") →
  user.Email u = EmptyString
  ∨ c.(githubConnector.preferredEmailDomain) ≠ EmptyString →
  Pages client (c.(githubConnector.apiURL) +:+ "/user/emails") pages →
  WellFormed c (concat pages) →
  (length pages ≤ fuel)%nat →
  returns (user fuel c client)
    = Some (user.with_Email u (chosenEmail c (concat pages)).1,
            (chosenEmail c (concat pages)).2).
Proof.
  intros Hget Hshortcut Hlookup Hpages Hwf Hfuel.
  unfold user. rewrite (returns_bind_Some _ _ _ Hget). cbv beta iota.
  assert (c.(githubConnector.noreplyPrivateEmail)
          && (bool_decide (c.(githubConnector.hostName) = EmptyString)
              || bool_decide (c.(githubConnector.hostName) = "github.com"))
          = false) as ->.
  { destruct Hshortcut as [->|[? ?]]; [done|].
    rewrite !bool_decide_eq_false_2 by done. apply andb_false_r. }
  assert (bool_decide (user.Email u = EmptyString)
          || bool_decide (c.(githubConnector.preferredEmailDomain) ≠ EmptyString)
          = true) as ->.
  { destruct Hlookup.
    - by rewrite bool_decide_eq_true_2.
    - rewrite (bool_decide_eq_true_2 (_ ≠ _)) by done. apply orb_true_r. }
  rewrite (returns_bind_Some _ _ _ (userEmail_chosen c client pages fuel
                                      Hpages Hwf Hfuel)).
  by destruct (chosenEmail c (concat pages)) as [email [err|]].
Qed.
End Emails.

Section EmailsExamples.
#[local] Existing Instance example_Env.

Lemma userEmail_malformed_witness :
  returns (userEmail 1 example_preferred_connector
             (example_preferred_client "mona@corp.example.com|vp,broken|v"))
    = Some (EmptyString,
            Some (errors_New "github: invalid format email is detected")).
Proof.
  refine (userEmail_malformed example_preferred_connector
            (example_preferred_client "mona@corp.example.com|vp,broken|v")
            "https://api.github.com/user/emails" []
            [userEmail.mk "mona@corp.example.com" true true "private";
             userEmail.mk "broken" true false "private"]
            EmptyString 1 _ _ _ eq_refl _ _).
  - done.
  - apply PagesTo_nil.
  - intros _. constructor.
  - exists (userEmail.mk "broken" true false "private").
    split; [right; left | reflexivity].
  - simpl. lia.
Defined.

Lemma userEmail_enterprise_witness :
  returns (userEmail 1 example_enterprise_connector
             (example_enterprise_client "p"))
    = returns (userEmail 1 example_enterprise_connector
                 (example_enterprise_client "vp")).
Proof.
  refine (userEmail_enterprise example_enterprise_connector
            (example_enterprise_client "p") (example_enterprise_client "vp")
            [[userEmail.mk "mona@corp.example.com" false true "private"]]
            [[userEmail.mk "mona@corp.example.com" true true "private"]]
            1 1 _ _ _ _ _ _ _).
  - done.
  - apply Pages_last. reflexivity.
  - apply Pages_last. reflexivity.
  - repeat constructor.
  - intros Hpref. by vm_compute in Hpref.
  - simpl. lia.
  - simpl. lia.
Defined.

Lemma isPreferredEmailDomain_literal_witness :
  isPreferredEmailDomain example_preferred_connector "corp.example.com" = true.
Proof.
  refine (proj2 (isPreferredEmailDomain_literal example_preferred_connector
                   "corp.example.com" _) eq_refl).
  repeat (constructor; [done|]). constructor.
Defined.

Lemma user_public_email_witness :
  user 0 example_connector example_profile_client
    = Some ((example_mona, None), [Request "https://api.github.com/user"]).
Proof.
  refine (user_public_email example_connector example_profile_client 0
            example_mona EmptyString eq_refl _ _ eq_refl).
  - by left.
  - done.
Defined.

Lemma user_private_email_witness :
  returns (user 1 example_preferred_connector
             (example_preferred_client
                "mona@example.com|vp,mona@corp.example.com|v"))
    = Some (user.with_Email example_mona "mona@corp.example.com", None).
Proof.
  refine (user_private_email example_preferred_connector
            (example_preferred_client
               "mona@example.com|vp,mona@corp.example.com|v")
            1 example_mona EmptyString
            [[userEmail.mk "mona@example.com" true true "private";
              userEmail.mk "mona@corp.example.com" true false "private"]]
            eq_refl _ _ _ _ _).
  - by left.
  - by right.
  - apply Pages_last. reflexivity.
  - intros _. repeat constructor.
  - simpl. lia.
Defined.
End EmailsExamples.

(** ** The configuration *)

Lemma HasSuffix_spec (s suffix : string) :
  HasSuffix s suffix = true ↔ ∃ pre, s = pre +:+ suffix.
Proof.
  induction s as [|a s IH]; simpl; rewrite orb_true_iff, bool_decide_eq_true.
  - split.
    + intros [<-|?]; [by exists EmptyString | done].
    + intros [[|b pre] Hpre]; [by left | done].
  - rewrite IH. split.
    + intros [<-|[pre ->]]; [by exists EmptyString|].
      by exists (String a pre).
    + intros [[|b pre] Hpre]; [by left|].
      rewrite append_cons in Hpre. injection Hpre as -> ->. eauto.
Qed.

Lemma Contains_spec (s substr : string) :
  Contains s substr = true ↔ ∃ pre post, s = pre +:+ substr +:+ post.
Proof.
  induction s as [|a s IH].
  - simpl. rewrite orb_false_r, has_prefix_spec. split.
    + intros [post Hpost]. by exists EmptyString, post.
    + intros ([|b pre] & post & Hpre); [eauto | done].
  - change (Contains (String a s) substr)
      with (has_prefix substr (String a s) || Contains s substr).
    rewrite orb_true_iff, has_prefix_spec, IH. split.
    + intros [[post Hpost]|(pre & post & ->)].
      * by exists EmptyString, post.
      * by exists (String a pre), post.
    + intros ([|b pre] & post & Hpre); [eauto|].
      rewrite append_cons in Hpre. injection Hpre as -> ->. eauto.
Qed.

(** The text ends with the last of its fields. *)
Lemma Split_last (s : string) (sep : ascii) (l : string) :
  last (Split s sep) = Some l → ∃ pre, s = pre +:+ l.
Proof.
  revert l. induction s as [|a s IH]; intros l; simpl.
  - intros [= <-]. by exists EmptyString.
  - pose proof (Split_nonempty s sep) as Hne.
    pose proof (Split_concat s sep) as Hconcat.
    destruct (Split s sep) as [|p ps] eqn:Hs; [done|].
    destruct (decide (a = sep)) as [->|Ha].
    + rewrite last_cons_cons. intros Hl.
      destruct (IH l Hl) as [pre ->]. by exists (String sep pre).
    + destruct ps as [|p' ps].
      * intros [= <-]. simpl in Hconcat. subst s. by exists EmptyString.
      * rewrite last_cons_cons. intros Hl. rewrite last_cons_cons in IH.
        destruct (IH l Hl) as [pre ->]. by exists (String a pre).
Qed.

Lemma Forall2_last {A B : Type} (P : A → B → Prop) (l1 : list A)
    (l2 : list B) (x : A) :
  Forall2 P l1 l2 → last l1 = Some x → ∃ y, last l2 = Some y ∧ P x y.
Proof.
  induction 1 as [|a b l1 l2 Hab Hrest IH]; [done|].
  destruct Hrest as [|a' b' l1 l2 Hab' Hrest].
  - intros [= <-]. eauto.
  - rewrite !last_cons_cons. apply IH.
Qed.

Section Configuration.
Context `{!Env} `{!ConnectorLibs}.

(** What [Open] has checked and set when it returns a connector. *)
Lemma Open_inv (c : Config.t) (id : string) (g : option githubConnector.t) :
  (Open c id).1 = (g, None) →
  ¬ Rejected c ∧
  g = Some
        (githubConnector.mk
           (Config.RedirectURI c) (Config.Org c) (Config.Orgs c)
           (Config.ClientID c) (Config.ClientSecret c)
           (if decide (Config.HostName c ≠ EmptyString)
            then "https://" +:+ Config.HostName c +:+ "/api/v3" else apiURL)
           (Config.HostName c) (Config.RootCA c)
           (if decide (Config.RootCA c ≠ EmptyString)
            then (NewHTTPClient [Config.RootCA c] false).1 else None)
           (Config.TeamNameField c) (Config.LoadAllGroups c)
           (Config.UseLoginAsID c) (Config.PreferredEmailDomain c)
           (Config.NoreplyPrivateEmail c)).
Proof.
  unfold Open, Rejected.
  destruct (decide (Config.Org c ≠ EmptyString ∧ _)) as [|Horg]; [done|].
  destruct (bool_decide (Config.HostName c ≠ EmptyString)
            && Contains (Config.HostName c) "/") eqn:Hhost; [done|].
  destruct (decide (Config.RootCA c ≠ EmptyString ∧ _)) as [|Hroot]; [done|].
  destruct (decide (Config.RootCA c ≠ EmptyString)) as [Hca|Hca].
  - destruct (NewHTTPClient [Config.RootCA c] false) as [hc [err|]] eqn:Hnew;
      [done|].
    destruct (bool_decide (Config.TeamNameField c ∈ _)) eqn:Hfield; [|done].
    destruct (bool_decide (Config.PreferredEmailDomain c ≠ EmptyString)
              && HasSuffix (Config.PreferredEmailDomain c) "*") eqn:Hpref;
      [done|].
    simpl. intros [= <-]. split; [|done].
    apply bool_decide_eq_true in Hfield.
    intros [[? ?]|[Hslash|[[? ?]|[[_ ?]|[?|Hstar]]]]]; try done.
    + apply Horg. split; [done|]. destruct (Config.Orgs c); [done|simpl; lia].
    + rewrite (proj2 (Contains_spec _ _) Hslash), andb_true_r in Hhost.
      apply bool_decide_eq_false in Hhost. apply Hroot. split; [done|].
      by apply dec_stable.
    + apply Hroot. done.
    + rewrite (proj2 (HasSuffix_spec _ _) Hstar), andb_true_r in Hpref.
      apply bool_decide_eq_false, dec_stable in Hpref.
      destruct Hstar as [pre Hpre]. rewrite Hpref in Hpre. by destruct pre.
  - destruct (bool_decide (Config.TeamNameField c ∈ _)) eqn:Hfield; [|done].
    destruct (bool_decide (Config.PreferredEmailDomain c ≠ EmptyString)
              && HasSuffix (Config.PreferredEmailDomain c) "*") eqn:Hpref;
      [done|].
    simpl. intros [= <-]. split; [|done].
    apply bool_decide_eq_true in Hfield.
    intros [[? ?]|[Hslash|[[? ?]|[[? _]|[?|Hstar]]]]]; try done.
    + apply Horg. split; [done|]. destruct (Config.Orgs c); [done|simpl; lia].
    + rewrite (proj2 (Contains_spec _ _) Hslash), andb_true_r in Hhost.
      apply bool_decide_eq_false, dec_stable in Hhost.
      destruct Hslash as (pre & post & Hpre). rewrite Hhost in Hpre.
      by destruct pre.
    + rewrite (proj2 (HasSuffix_spec _ _) Hstar), andb_true_r in Hpref.
      apply bool_decide_eq_false, dec_stable in Hpref.
      destruct Hstar as [pre Hpre]. rewrite Hpref in Hpre. by destruct pre.
Qed.
(** An error of [Open] comes with no connector, for a configuration that
    is refused. *)
Lemma Open_error (c : Config.t) (id : string) (g : option githubConnector.t)
    (err : error) :
  (Open c id).1 = (g, Some err) → g = None ∧ Rejected c.
Proof.
  unfold Open, Rejected.
  destruct (decide (Config.Org c ≠ EmptyString ∧ _)) as [[Horg Horgs]|Horg].
  { simpl. intros [= <- _]. split; [done|]. left. split; [done|].
    destruct (Config.Orgs c); [simpl in Horgs; lia | done]. }
  destruct (bool_decide (Config.HostName c ≠ EmptyString)
            && Contains (Config.HostName c) "/") eqn:Hhost.
  { simpl. intros [= <- _]. split; [done|]. right; left.
    apply andb_true_iff in Hhost as [_ Hhost]. by apply Contains_spec. }
  destruct (decide (Config.RootCA c ≠ EmptyString ∧ _)) as [Hroot|Hroot].
  { simpl. intros [= <- _]. split; [done|]. tauto. }
  destruct (decide (Config.RootCA c ≠ EmptyString)) as [Hca|Hca].
  - destruct (NewHTTPClient [Config.RootCA c] false) as [hc [e|]] eqn:Hnew.
    { simpl. intros [= <- _]. split; [done|]. do 3 right. left.
      by split. }
    destruct (bool_decide (Config.TeamNameField c ∈ _)) eqn:Hfield.
    + destruct (bool_decide (Config.PreferredEmailDomain c ≠ EmptyString)
                && HasSuffix (Config.PreferredEmailDomain c) "*") eqn:Hpref;
        [|done].
      simpl. intros [= <- _]. split; [done|]. do 5 right.
      apply andb_true_iff in Hpref as [_ Hpref]. by apply HasSuffix_spec.
    + simpl. intros [= <- _]. split; [done|]. do 4 right. left.
      by apply bool_decide_eq_false in Hfield.
  - destruct (bool_decide (Config.TeamNameField c ∈ _)) eqn:Hfield.
    + destruct (bool_decide (Config.PreferredEmailDomain c ≠ EmptyString)
                && HasSuffix (Config.PreferredEmailDomain c) "*") eqn:Hpref;
        [|done].
      simpl. intros [= <- _]. split; [done|]. do 5 right.
      apply andb_true_iff in Hpref as [_ Hpref]. by apply HasSuffix_spec.
    + simpl. intros [= <- _]. split; [done|]. do 4 right. left.
      by apply bool_decide_eq_false in Hfield.
Qed.

(** X14.  [Open] returns an error and no connector exactly for the
    configurations that set both the legacy org and the org list, have a
    [/] in the host name, have a root certificate without host name or
    one no HTTP client can be made of, have a team name field other than
    [name], [slug], [both] and the empty one, or have a preferred domain
    that ends with [*]; for all others it returns a connector and no
    error. *)
Theorem Open_rejects (c : Config.t) (id : string) :
  (Rejected c ↔ ∃ err, (Open c id).1 = (None, Some err)) ∧
  (¬ Rejected c ↔ ∃ g, (Open c id).1 = (Some g, None)).
Proof.
  destruct (Open c id).1 as [g [err|]] eqn:Hopen.
  - destruct (Open_error c id g err Hopen) as [-> Hrej].
    split; split; try done; [eauto | by intros (g & [=])].
  - destruct (Open_inv c id g Hopen) as [Hacc ->].
    split; split; try done; [by intros (err & [=]) | eauto].
Qed.

(** X15.  A connector that [Open] returns has the API base
    [https://api.github.com] without a host name and
    [https://<host>/api/v3] with one; it never has both a legacy org and
    an org list; it has a root certificate or an HTTP client of its own
    only with a host name; and its team name field is one of [name],
    [slug], [both] and the empty one.  The warning about the legacy org is
    logged exactly when the legacy org is set. *)
Theorem Open_connector (c : Config.t) (id : string) (g : githubConnector.t) :
  (Open c id).1 = (Some g, None) →
  g.(githubConnector.apiURL)
    = (if decide (Config.HostName c = EmptyString)
       then "https://api.github.com"
       else "https://" +:+ Config.HostName c +:+ "/api/v3") ∧
  g.(githubConnector.hostName) = Config.HostName c ∧
  (g.(githubConnector.org) ≠ EmptyString → g.(githubConnector.orgs) = []) ∧
  (g.(githubConnector.rootCA) ≠ EmptyString
   ∨ g.(githubConnector.httpClient) ≠ None →
   g.(githubConnector.hostName) ≠ EmptyString) ∧
  g.(githubConnector.teamNameField) ∈ ["name"; "slug"; "both"; EmptyString] ∧
  ((Open c id).2 ≠ [] ↔ g.(githubConnector.org) ≠ EmptyString).
Proof.
  intros Hopen. pose proof (Open_inv c id _ Hopen) as [Hacc [= ->]]. simpl.
  unfold Rejected in Hacc. repeat split.
  - by repeat destruct (decide _).
  - intros Horg. destruct (Config.Orgs c) eqn:Horgs; [done|].
    destruct Hacc. by left.
  - intros [Hca|Hclient] Hhost.
    + destruct Hacc. tauto.
    + destruct (decide (Config.RootCA c ≠ EmptyString)); [|done].
      destruct Hacc. tauto.
  - destruct (decide (Config.TeamNameField c ∈ ["name"; "slug"; "both"; EmptyString]));
      [done|]. destruct Hacc. tauto.
  - revert Hopen. unfold Open.
    destruct (decide (Config.Org c ≠ EmptyString ∧ _)); [done|].
    intros _ Hwarn Horg. apply Hwarn. rewrite decide_False by (by intros ?).
    destruct (bool_decide _ && _); [done|].
    destruct (decide (_ ∧ _)); [done|].
    destruct (if decide _ then _ else _) as [hc [err|]]; [done|].
    destruct (bool_decide _); [|done]. by destruct (bool_decide _ && _).
  - revert Hopen. unfold Open.
    destruct (decide (Config.Org c ≠ EmptyString ∧ _)); [done|].
    intros _ Horg. rewrite decide_True by done.
    destruct (bool_decide _ && _); [done|].
    destruct (decide (_ ∧ _)); [done|].
    destruct (if decide _ then _ else _) as [hc [err|]]; [done|].
    destruct (bool_decide _); [|done]. by destruct (bool_decide _ && _).
Qed.

(** X16.  For a connector that [Open] returns with a preferred domain, a
    candidate domain that the comparator accepts ends with the last label
    of the preferred domain: the last label is never open to a
    wildcard. *)
Theorem Open_preferred_last_label (c : Config.t) (id : string)
    (g : githubConnector.t) (domain : string) :
  (Open c id).1 = (Some g, None) →
  isPreferredEmailDomain g domain = true →
  last (Split domain ".")
    = last (Split g.(githubConnector.preferredEmailDomain) ".").
Proof.
  intros Hopen. pose proof (Open_inv c id _ Hopen) as [Hacc [= ->]]. simpl.
  unfold isPreferredEmailDomain. simpl.
  destruct (decide (domain = _)) as [->|Hne]; [done|].
  destruct (decide (length _ ≠ length _)) as [|Hlen]; [done|].
  apply dec_stable in Hlen. intros Hrange.
  apply (isPreferredEmailDomain_range_spec _ _ 0) in Hrange;
    [|by rewrite drop_0].
  rewrite drop_0 in Hrange.
  pose proof (Split_nonempty (Config.PreferredEmailDomain c) ".") as Hnil.
  destruct (last (Split (Config.PreferredEmailDomain c) ".")) as [p|] eqn:Hp;
    [|by apply last_None in Hp].
  destruct (Forall2_last _ _ _ _ Hrange Hp) as (d & -> & [-> | ->]); [done|].
  destruct Hacc. do 5 right. by apply (Split_last _ ".").
Qed.
End Configuration.

Section ConfigurationExamples.
#[local] Existing Instance example_Env.
#[local] Existing Instance example_libs.

Lemma Open_rejects_witness :
  ∃ err, (Open example_bad_config "github").1 = (None, Some err).
Proof.
  refine (proj1 (proj1 (Open_rejects example_bad_config "github")) _).
  right; left. by exists "ghe.example.com", "api".
Defined.

Lemma Open_connector_witness :
  ∃ g, (Open example_config "github").1 = (Some g, None) ∧
       g.(githubConnector.apiURL) = "https://ghe.example.com/api/v3".
Proof.
  eexists. split; [reflexivity|].
  refine (proj1 (Open_connector example_config "github" _ eq_refl)).
Defined.

Lemma Open_preferred_last_label_witness :
  last (Split "mail.example.com" ".") = last (Split "*.example.com" ".").
Proof.
  refine (Open_preferred_last_label example_config "github" _
            "mail.example.com" eq_refl eq_refl).
Defined.
End ConfigurationExamples.

(** ** The flow *)

Section FlowMore.
Context `{!Env} `{!ConnectorLibs}.
Implicit Types (c : githubConnector.t) (client : Client).

(** X17.  [LoginURL] fails, with no URL, exactly when the callback URL is
    not the configured redirect URI.  Otherwise the URL is the consent
    page of a configuration that redirects to that URI, that asks for the
    scope [user:email] always, for the scope [read:org] exactly when the
    org list or the legacy org is set or the groups scope is requested,
    and for no other scope, and that uses the endpoints of the host when a
    host name is set and those of the public provider otherwise. *)
Theorem LoginURL_scopes c (scopes : Scopes.t) (callbackURL state : string) :
  (callbackURL ≠ c.(githubConnector.redirectURI) →
   ∃ err, LoginURL c scopes callbackURL state = (EmptyString, Some err)) ∧
  (callbackURL = c.(githubConnector.redirectURI) →
   ∃ cfg : oauth2.Config,
     LoginURL c scopes callbackURL state = (AuthCodeURL cfg state, None) ∧
     oauth2.RedirectURL cfg = callbackURL ∧
     oauth2.ClientID cfg = c.(githubConnector.clientID) ∧
     scopeEmail ∈ oauth2.Scopes cfg ∧
     (scopeOrgs ∈ oauth2.Scopes cfg ↔
      c.(githubConnector.orgs) ≠ [] ∨ c.(githubConnector.org) ≠ EmptyString
      ∨ Scopes.Groups scopes = true) ∧
     (∀ s, s ∈ oauth2.Scopes cfg → s = scopeEmail ∨ s = scopeOrgs) ∧
     oauth2.Endpoint cfg
       = (if decide (c.(githubConnector.hostName) = EmptyString)
          then github_Endpoint
          else Endpoint.mk
                 ("https://" +:+ c.(githubConnector.hostName)
                    +:+ "/login/oauth/authorize")
                 ("https://" +:+ c.(githubConnector.hostName)
                    +:+ "/login/oauth/access_token"))).
Proof.
  unfold LoginURL. split.
  - intros Hne. rewrite decide_True by done. eauto.
  - intros ->. rewrite decide_False by (by intros ?).
    eexists. split; [done|]. unfold oauth2Config. simpl.
    split; [done|]. split; [done|].
    assert (groupsRequired c (Scopes.Groups scopes) = true ↔
            c.(githubConnector.orgs) ≠ [] ∨ c.(githubConnector.org) ≠ EmptyString
            ∨ Scopes.Groups scopes = true) as Hreq.
    { unfold groupsRequired.
      rewrite !orb_true_iff, !bool_decide_eq_true.
      assert ((0 < length c.(githubConnector.orgs))%nat
              ↔ c.(githubConnector.orgs) ≠ []) as ->; [|tauto].
      destruct (githubConnector.orgs c); simpl; split; (lia || done). }
    destruct (groupsRequired c (Scopes.Groups scopes)).
    + repeat split.
      * left.
      * intros _. by apply Hreq.
      * intros _. right. left.
      * intros s. rewrite !elem_of_cons, elem_of_nil. tauto.
      * by repeat destruct (decide _).
    + repeat split.
      * left.
      * intros Hin. apply list_elem_of_singleton in Hin. done.
      * intros Hor. by apply Hreq in Hor.
      * intros s. rewrite !elem_of_cons, elem_of_nil. tauto.
      * by repeat destruct (decide _).
Qed.

(** What a successful [HandleCallback] has done. *)
Lemma HandleCallback_inv (fuel : nat) (up : Upstream) c (s : Scopes.t)
    (r : http_Request.t) (identity : Identity.t) :
  returns (HandleCallback fuel up c s r) = Some (identity, None) →
  ∃ (token : oauth2.Token) (u : user.t),
    Values_Get (http_Request.URL_Query r) "error" = EmptyString ∧
    Exchange up (callbackContext c r) (oauth2Config c s)
      (Values_Get (http_Request.URL_Query r) "code") = (token, None) ∧
    returns (user fuel c (Serve up (callbackContext c r) (oauth2Config c s)
                            token))
      = Some (u, None) ∧
    (if groupsRequired c (Scopes.Groups s)
     then returns (getGroups fuel c
                     (Serve up (callbackContext c r) (oauth2Config c s) token)
                     (Scopes.Groups s) (user.Login u))
          = Some (Identity.Groups identity, None)
     else Identity.Groups identity = []) ∧
    (if Scopes.OfflineAccess s
     then Marshal (connectorData.mk (oauth2.AccessToken token))
          = (Identity.ConnectorData identity, None)
     else Identity.ConnectorData identity = EmptyString) ∧
    identity
      = Identity.mk
          (if c.(githubConnector.useLoginAsID) then user.Login u
           else Itoa (user.ID u))
          (if decide (user.Name u = EmptyString) then user.Login u
           else user.Name u)
          (user.Login u) (user.Email u) true
          (Identity.Groups identity) (Identity.ConnectorData identity).
Proof.
  unfold HandleCallback, callbackContext.
  destruct (decide (Values_Get _ "error" ≠ EmptyString)) as [|Herr]; [done|].
  apply dec_stable in Herr.
  destruct (Exchange up _ _ _) as [token [err|]] eqn:Hex; [done|].
  intros Hrun.
  apply returns_bind_inv in Hrun as ([u [err|]] & Hu & Hrun); [done|].
  exists token, u. split; [done|]. split; [done|]. split; [done|].
  apply returns_bind_inv in Hrun as ([identity0 err] & Hgroups & Hrun).
  destruct (groupsRequired c (Scopes.Groups s)).
  - apply returns_bind_inv in Hgroups as ([groups [err'|]] & Hget & Hgroups);
      injection Hgroups as <- <-; [done|].
    destruct (Scopes.OfflineAccess s).
    + destruct (Marshal _) as [connData [err|]]; [done|].
      injection Hrun as <-.
      by destruct (githubConnector.useLoginAsID c).
    + injection Hrun as <-. by destruct (githubConnector.useLoginAsID c).
  - injection Hgroups as <- <-.
    destruct (Scopes.OfflineAccess s).
    + destruct (Marshal _) as [connData [err|]]; [done|].
      injection Hrun as <-.
      by destruct (githubConnector.useLoginAsID c).
    + injection Hrun as <-. by destruct (githubConnector.useLoginAsID c).
Qed.

(** X19.  The identity of a successful [HandleCallback] is that of the
    fetched profile: its user id is the login when the connector uses the
    login as id and the numeric id in decimal otherwise, its username is
    the name of the profile, or the login when the name is empty, its
    preferred username is the login and its e-mail that of the profile.
    It has no groups when group resolution is not required, and it has
    opaque state, the marshalled access token, exactly when offline access
    is requested. *)
Theorem HandleCallback_identity (fuel : nat) (up : Upstream) c (s : Scopes.t)
    (r : http_Request.t) (identity : Identity.t) :
  returns (HandleCallback fuel up c s r) = Some (identity, None) →
  ∃ (token : oauth2.Token) (u : user.t),
    returns (user fuel c (Serve up (callbackContext c r) (oauth2Config c s)
                            token))
      = Some (u, None) ∧
    Identity.UserID identity
      = (if c.(githubConnector.useLoginAsID) then user.Login u
         else Itoa (user.ID u)) ∧
    Identity.Username identity
      = (if decide (user.Name u = EmptyString) then user.Login u
         else user.Name u) ∧
    Identity.PreferredUsername identity = user.Login u ∧
    Identity.Email identity = user.Email u ∧
    (groupsRequired c (Scopes.Groups s) = false →
     Identity.Groups identity = []) ∧
    (Scopes.OfflineAccess s = false →
     Identity.ConnectorData identity = EmptyString) ∧
    (Scopes.OfflineAccess s = true →
     Marshal (connectorData.mk (oauth2.AccessToken token))
       = (Identity.ConnectorData identity, None)).
Proof.
  intros Hrun.
  destruct (HandleCallback_inv fuel up c s r identity Hrun)
    as (token & u & _ & _ & Hu & Hgroups & Hdata & Hid).
  exists token, u. split; [done|].
  rewrite Hid at 1 2 3 4. simpl. repeat split.
  - intros Hreq. by rewrite Hreq in Hgroups.
  - intros Hoff. by rewrite Hoff in Hdata.
  - intros Hoff. by rewrite Hoff in Hdata.
Qed.

(** X20.  Whatever [Refresh] returns, with or without error, the identity
    returned has the opaque state, the user id and the e-mail-verified
    flag of the prior identity; when it returns an error, the groups are
    those of the prior identity too. *)
Theorem Refresh_preserves (fuel : nat) (up : Upstream) c (ctx : Context)
    (s : Scopes.t) (identity identity' : Identity.t) (err : option error) :
  returns (Refresh fuel up c ctx s identity) = Some (identity', err) →
  Identity.ConnectorData identity' = Identity.ConnectorData identity ∧
  Identity.UserID identity' = Identity.UserID identity ∧
  Identity.EmailVerified identity' = Identity.EmailVerified identity ∧
  (err ≠ None → Identity.Groups identity' = Identity.Groups identity).
Proof.
  unfold Refresh.
  destruct (decide (String.length _ = 0%nat)); [by intros [= <- <-]|].
  destruct (Unmarshal (Identity.ConnectorData identity)) as [data [e|]];
    [by intros [= <- <-]|].
  intros Hrun. apply returns_bind_inv in Hrun as ([u [e|]] & Hu & Hrun);
    [by injection Hrun as <- <-|].
  destruct (groupsRequired c (Scopes.Groups s)).
  - apply returns_bind_inv in Hrun as ([groups [e|]] & Hgroups & Hrun);
      by injection Hrun as <- <-.
  - by injection Hrun as <- <-.
Qed.

End FlowMore.

Section FlowMoreExamples.
#[local] Existing Instance example_Env.
#[local] Existing Instance example_libs.

Lemma LoginURL_scopes_witness :
  ∃ cfg : oauth2.Config,
    LoginURL example_orgs_connector (Scopes.mk false false)
      "https://dex.example.com/callback" "state-1"
      = (AuthCodeURL cfg "state-1", None) ∧
    scopeOrgs ∈ oauth2.Scopes cfg.
Proof.
  destruct (proj2 (LoginURL_scopes example_orgs_connector
                     (Scopes.mk false false)
                     "https://dex.example.com/callback" "state-1") eq_refl)
    as (cfg & Hurl & _ & _ & _ & Horgs & _).
  exists cfg. split; [exact Hurl|]. apply Horgs. by left.
Defined.


Lemma HandleCallback_identity_witness :
  ∃ (token : oauth2.Token) (u : user.t),
    returns (user 0 example_connector
               (Serve example_upstream
                  (callbackContext example_connector example_callback)
                  (oauth2Config example_connector (Scopes.mk true false))
                  token))
      = Some (u, None) ∧
    "42" = (if example_connector.(githubConnector.useLoginAsID)
            then user.Login u else Itoa (user.ID u)).
Proof.
  assert (returns (HandleCallback 0 example_upstream example_connector
                     (Scopes.mk true false) example_callback)
          = Some (Identity.mk "42" "Mona" "mona" "mona@example.com" true []
                              "token", None)) as Hrun by reflexivity.
  destruct (HandleCallback_identity 0 example_upstream example_connector
              (Scopes.mk true false) example_callback _ Hrun)
    as (token & u & Hu & Hid & _).
  exists token, u. split; [exact Hu | exact Hid].
Defined.

Lemma Refresh_preserves_witness :
  Identity.ConnectorData
    (Identity.mk "42" "Mona" "mona" "mona@example.com" true ["old:group"]
                 "token")
    = Identity.ConnectorData example_identity.
Proof.
  refine (proj1 (Refresh_preserves 0 example_upstream example_connector None
                   (Scopes.mk false false) example_identity
                   (Identity.mk "42" "Mona" "mona" "mona@example.com" true
                                ["old:group"] "token")
                   None eq_refl)).
Defined.

End FlowMoreExamples.
